(** * logrus_influxdb: the InfluxDB hook for logrus

    A shallow embedding of [logrus_influxdb.go].  Go maps of type
    [map[string]string] are reference values: they live in a store and a
    hook, a point and the caller may all hold the same reference.  The
    InfluxDB client is an opaque collaborator; every call made to it is
    recorded, and its replies are functions of the calls made so far. *)

From stdpp Require Import gmap strings list fin_maps pretty.

Open Scope string_scope.

(** ** Values *)

(** A Go [error] value: an interface, so a dynamic type and a message. *)
Record error := mkError { err_type : string; err_msg : string }.

(** [errors.New] *)
Definition errors_New (msg : string) : error :=
  {| err_type := "*errors.errorString"; err_msg := msg |}.

(** The address of an [http.Request]. *)
Definition Request := positive.

(** A Go [interface{}] value, by dynamic type.  [IRequest None] is a nil
    pointer of type [*http.Request], [INil] the nil interface. *)
#[warnings="-register-all"]
Inductive iface : Type :=
| INil
| IString (s : string)
| IBool (b : bool)
| INumber (n : Z)
| IRequest (p : option Request)
| IFields (m : gmap string iface).

(** [logrus.Fields], a [map[string]interface{}].  The hook only reads it, and
    a nil map reads like an empty one. *)
Abbreviation logrus_Fields := (gmap string iface).

(** [logrus.Level], an unsigned integer counted from [PanicLevel]. *)
Definition logrus_Level := N.
Definition PanicLevel : logrus_Level := 0%N.
Definition FatalLevel : logrus_Level := 1%N.
Definition ErrorLevel : logrus_Level := 2%N.
Definition WarnLevel : logrus_Level := 3%N.
Definition InfoLevel : logrus_Level := 4%N.
Definition DebugLevel : logrus_Level := 5%N.

(** [logrus.Entry], as far as the hook reads it. *)
Record Entry := mkEntry {
  Data : logrus_Fields;
  Level : logrus_Level;
  Message : string;
}.

(** ** The store of tag maps *)

Definition loc := positive.
Abbreviation TagMap := (gmap string string).
Abbreviation Store := (gmap loc (gmap string string)).

(** ** The client's types *)

(** [influxdb.Point].  [Tags] is a map reference, nil when [None]. *)
Record Point := mkPoint {
  Measurement : string;
  Tags : option loc;
  Fields : logrus_Fields;
  Time : Z;
  Precision : string;
}.

Record BatchPoints := mkBatchPoints {
  Points : list Point;
  BPDatabase : string;
  RetentionPolicy : string;
}.

Record Query := mkQuery {
  Command : string;
  QDatabase : string;
}.

(** [models.Row]: [Values] is a [[][]interface{}]. *)
Record Row := mkRow {
  RowName : string;
  Columns : list string;
  Values : list (list iface);
}.

Record Result := mkResult {
  Series : list Row;
  ResultErr : option error;
}.

Record Response := mkResponse {
  Results : list Result;
  ResponseErr : option error;
}.

(** A value returned together with an error: [(v, nil)] or [(zero, err)]. *)
Inductive result (A : Type) : Type :=
| Ok (a : A)
| Err (e : error).
Arguments Ok {A} a.
Arguments Err {A} e.

(** A call received by the client.  A write is recorded with the store as it
    is at the call, which is what the client reads the point's tags from. *)
Inductive Call : Type :=
| CallPing
| CallQuery (q : Query)
| CallWrite (bp : BatchPoints) (seen : Store).

(** [*influxdb.Client]: what it answers to a call, given the calls before. *)
Record Client := mkClient {
  on_ping : list Call → option error;
  on_query : list Call → Query → result Response;
  on_write : list Call → BatchPoints → Store → option error;
}.

Record Config := mkConfig {
  URL : string;
  Username : string;
  Password : string;
  Timeout_ms : Z;
}.

(** ** The world and the monad of Go computations *)

Record World := mkWorld {
  mem : Store;
  calls : list Call;
  clock : Z;
  environ : gmap string string;
}.

Definition set_mem (s : Store) (w : World) : World :=
  {| mem := s; calls := calls w; clock := clock w; environ := environ w |}.

Definition log_call (c : Call) (w : World) : World :=
  {| mem := mem w; calls := calls w ++ [c]; clock := clock w;
     environ := environ w |}.

Inductive outcome (A : Type) : Type :=
| Returns (a : A)
| Panics (why : string).
Arguments Returns {A} a.
Arguments Panics {A} why.

Definition Go (A : Type) : Type := World → outcome A * World.

Definition ret {A} (a : A) : Go A := λ w, (Returns a, w).

Definition bind {A B} (m : Go A) (k : A → Go B) : Go B := λ w,
  match m w with
  | (Returns a, w') => k a w'
  | (Panics why, w') => (Panics why, w')
  end.

Notation "'let*' x := m 'in' k" := (bind m (λ x, k))
  (at level 10, x name, m at level 100, k at level 200, only parsing).
Notation "'run' m 'then' k" := (bind m (λ _, k))
  (at level 10, m at level 100, k at level 200, only parsing).

Definition panic {A} (why : string) : Go A := λ w, (Panics why, w).

(** ** What the Go runtime and the standard library provide *)

(** [time.Now()] *)
Definition time_Now : Go Z := λ w, (Returns (clock w), w).

(** [os.Getenv]: the empty string for a variable that is not set. *)
Definition os_Getenv (k : string) : Go string :=
  λ w, (Returns (default "" (environ w !! k)), w).

(** [map[string]string{}]: a new, empty map. *)
Definition map_new : Go (option loc) := λ w,
  let l := fresh (dom (mem w)) in
  (Returns (Some l), set_mem (<[l := ∅]> (mem w)) w).

(** [t[k] = v].  Writing to a nil map panics. *)
Definition map_assign (t : option loc) (k v : string) : Go unit := λ w,
  match t with
  | None => (Panics "assignment to entry in nil map", w)
  | Some l =>
      match mem w !! l with
      | Some m => (Returns (), set_mem (<[l := <[k := v]> m]> (mem w)) w)
      | None => (Panics "map reference not in the store", w)
      end
  end.

(** ** Calls into the client.  Its methods dereference their receiver. *)

Definition client_Ping (c : Client) : Go (option error) := λ w,
  (Returns (on_ping c (calls w)), log_call CallPing w).

Definition client_Query (c : option Client) (q : Query)
  : Go (result Response) := λ w,
  match c with
  | None =>
      (Panics "runtime error: invalid memory address or nil pointer dereference",
       w)
  | Some c => (Returns (on_query c (calls w) q), log_call (CallQuery q) w)
  end.

Definition client_Write (c : option Client) (bp : BatchPoints)
  : Go (option error) := λ w,
  match c with
  | None =>
      (Panics "runtime error: invalid memory address or nil pointer dereference",
       w)
  | Some c =>
      (Returns (on_write c (calls w) bp (mem w)),
       log_call (CallWrite bp (mem w)) w)
  end.

(** ** The hook *)

Definition DefaultHost : string := "localhost".
Definition DefaultPort : Z := 8086.
Definition DefaultDatabase : string := "logrus".

Record InfulxDBHook := mkHook {
  client : option Client;
  database : string;
  tags : option loc;
}.

(** [point.Fields[k] = v] on the point's own, freshly made field map. *)
Definition set_field (p : Point) (k : string) (v : iface) : Point :=
  {| Measurement := Measurement p; Tags := Tags p;
     Fields := <[k := v]> (Fields p); Time := Time p;
     Precision := Precision p |}.

Definition getField (d : logrus_Fields) (key : string) : string * bool :=
  match d !! key with
  | None => ("", false)
  | Some v =>
      match v with
      | IString val => (val, true)
      | _ => ("", false)
      end
  end.

Definition getRequest (d : logrus_Fields) (key : string)
  : option Request * bool :=
  match d !! key with
  | None => (None, false)
  | Some v =>
      match v with
      | IRequest (Some req) => (Some req, true)
      | _ => (None, false)
      end
  end.

Definition Levels : list logrus_Level :=
  [PanicLevel; FatalLevel; ErrorLevel; WarnLevel; InfoLevel; DebugLevel].

(** The inner loop of [databaseExists]: the cells of one row. *)
Fixpoint row_names (db : string) (value : list iface) : bool :=
  match value with
  | [] => false
  | val :: rest =>
      match val with
      | IString v => if decide (v = db) then true else row_names db rest
      | _ => row_names db rest
      end
  end.

(** The outer loop of [databaseExists]: the rows of the series. *)
Fixpoint values_name (db : string) (values : list (list iface)) : bool :=
  match values with
  | [] => false
  | value :: rest =>
      if row_names db value then true else values_name db rest
  end.

(** From the libraries the hook is built on: [Level.String] of logrus,
    [Response.Error] and [NewClient] of the InfluxDB client, [url.Parse]. *)
Class Libraries := {
  Level_String : logrus_Level → string;
  Response_Error : Response → option error;
  url_Parse : string → result string;
  influxdb_NewClient : Config → result Client;
}.

Section Hook.
Context `{Libraries}.

Definition Fire (hook : InfulxDBHook) (entry : Entry) : Go (option error) :=
  let* now := time_Now in
  let point :=
    {| Measurement := "logrus"; Tags := tags hook;
       Fields := {[ "message" := IString (Message entry) ]};
       Time := now; Precision := "s" |} in
  run map_assign (Tags point) "level" (Level_String (Level entry)) then
  run (let '(logger, ok) := getField (Data entry) "logger" in
       if ok then map_assign (Tags point) "logger" logger else ret ()) then
  run (let '(serverName, ok) := getField (Data entry) "server_name" in
       if ok then map_assign (Tags point) "server_name" serverName
       else ret ()) then
  let point :=
    let '(req, ok) := getRequest (Data entry) "http_request" in
    if ok then set_field point "http_request" (IRequest req) else point in
  let point := set_field point "extras" (IFields (Data entry)) in
  let* err := client_Write (client hook)
                {| Points := [point]; BPDatabase := database hook;
                   RetentionPolicy := "default" |} in
  match err with
  | Some e => ret (Some e)
  | None => ret None
  end.

Definition queryDB (hook : InfulxDBHook) (cmd : string)
  : Go (result (list Result)) :=
  let* r := client_Query (client hook)
              {| Command := cmd; QDatabase := database hook |} in
  match r with
  | Err e => ret (Err e)
  | Ok response =>
      match Response_Error response with
      | Some e => ret (Err e)
      | None => ret (Ok (Results response))
      end
  end.

Definition databaseExists (hook : InfulxDBHook) : Go (option error) :=
  let* r := queryDB hook "SHOW DATABASES" in
  match r with
  | Err e => ret (Some e)
  | Ok results =>
      match results with
      | [] =>
          ret (Some (errors_New "Missing results from InfluxDB query response"))
      | r0 :: _ =>
          match Series r0 with
          | [] =>
              ret (Some
                (errors_New "Missing series from InfluxDB query response"))
          | s0 :: _ =>
              if values_name (database hook) (Values s0) then ret None
              else ret (Some (errors_New "No database exists"))
          end
      end
  end.

Definition autocreateDatabase (hook : InfulxDBHook) : Go (option error) :=
  let* err := databaseExists hook in
  match err with
  | None => ret None
  | Some _ =>
      let* r := queryDB hook ("create database " ++ database hook) in
      match r with
      | Err e => ret (Some e)
      | Ok _ => ret None
      end
  end.

Definition NewInfluxDBHook (hostname database : string) (tags : option loc)
  : Go (result InfulxDBHook) :=
  let database := if decide (database = "") then DefaultDatabase else database in
  let* tags := match tags with None => map_new | Some l => ret (Some l) end in
  match url_Parse ("http://" ++ hostname ++ ":" ++ pretty DefaultPort) with
  | Err e => ret (Err e)
  | Ok u =>
      let* user := os_Getenv "INFLUX_USER" in
      let* pwd := os_Getenv "INFLUX_PWD" in
      let conf := {| URL := u; Username := user; Password := pwd;
                     Timeout_ms := 100 |} in
      match influxdb_NewClient conf with
      | Err e => ret (Err e)
      | Ok c =>
          let* err := client_Ping c in
          match err with
          | Some e => ret (Err e)
          | None =>
              let hook := {| client := Some c; database := database;
                             tags := tags |} in
              let* err := autocreateDatabase hook in
              match err with
              | Some e => ret (Err e)
              | None => ret (Ok hook)
              end
          end
      end
  end.

Definition NewWithClientInfulxDBHook (client : option Client)
    (database : string) (tags : option loc) : Go (result InfulxDBHook) :=
  let database := if decide (database = "") then DefaultDatabase else database in
  let* tags := match tags with None => map_new | Some l => ret (Some l) end in
  match client with
  | None => NewInfluxDBHook DefaultHost database tags
  | Some c =>
      ret (Ok {| client := Some c; database := database; tags := tags |})
  end.

End Hook.

(** ** Successive log calls *)

Section Driver.
Context `{Libraries}.

(** The logger fires the hook once per entry, one entry after the other. *)
Fixpoint Fire_all (hook : InfulxDBHook) (es : list Entry)
  : Go (list (option error)) :=
  match es with
  | [] => ret []
  | e :: es =>
      let* r := Fire hook e in
      let* rs := Fire_all hook es in
      ret (r :: rs)
  end.

(** ** What a call of [Fire] amounts to *)

(** The hook's tag map after [Fire], from the map before. *)
Definition fire_tags (e : Entry) (m : TagMap) : TagMap :=
  let m := <["level" := Level_String (Level e)]> m in
  let m := if (getField (Data e) "logger").2
           then <["logger" := (getField (Data e) "logger").1]> m else m in
  if (getField (Data e) "server_name").2
  then <["server_name" := (getField (Data e) "server_name").1]> m else m.

(** The field map of the point [Fire] writes. *)
Definition fire_fields (e : Entry) : logrus_Fields :=
  let f : logrus_Fields := {[ "message" := IString (Message e) ]} in
  let f := if (getRequest (Data e) "http_request").2
           then <["http_request" :=
                    IRequest (getRequest (Data e) "http_request").1]> f
           else f in
  <["extras" := IFields (Data e)]> f.

Definition fire_point (hook : InfulxDBHook) (e : Entry) (now : Z) : Point :=
  {| Measurement := "logrus"; Tags := tags hook; Fields := fire_fields e;
     Time := now; Precision := "s" |}.

Definition fire_batch (hook : InfulxDBHook) (e : Entry) (now : Z)
  : BatchPoints :=
  {| Points := [fire_point hook e now]; BPDatabase := database hook;
     RetentionPolicy := "default" |}.

(** The tag map after each of a list of entries. *)
Fixpoint tag_states (es : list Entry) (m : TagMap) : list TagMap :=
  match es with
  | [] => []
  | e :: es => fire_tags e m :: tag_states es (fire_tags e m)
  end.

End Driver.

(** ** Observations *)

(** A usable hook: it has a client, and its tag map is a map of the store.
    Both constructors return such hooks. *)
Definition hook_ok (w : World) (hook : InfulxDBHook) : bool :=
  match client hook, tags hook with
  | Some _, Some l => bool_decide (is_Some (mem w !! l))
  | _, _ => false
  end.

(** The tag map the hook holds, read from the store. *)
Definition hook_tags (w : World) (hook : InfulxDBHook) : option TagMap :=
  tags hook ≫= (mem w !!.).

(** The tags of a point, as the client reads them at the write. *)
Definition tags_seen (p : Point) (seen : Store) : option TagMap :=
  Tags p ≫= (seen !!.).

(** The batch [Fire] hands to the client: one point, the hook's database. *)
Definition batch_of (hook : InfulxDBHook) (p : Point) : BatchPoints :=
  {| Points := [p]; BPDatabase := database hook;
     RetentionPolicy := "default" |}.

(** [Fire] on [w] returns [r], leaves [w'] and has made one more call: the
    write of the single point [p], the store being [seen] at that moment. *)
Definition Fire_writes `{Libraries} (hook : InfulxDBHook) (e : Entry)
    (w : World) (p : Point) (seen : Store) (r : option error) (w' : World)
  : Prop :=
  Fire hook e w = (Returns r, w') ∧
  calls w' = (calls w ++ [CallWrite (batch_of hook p) seen])%list.

(** What [queryDB] makes of the client's answer to a query. *)
Definition query_outcome `{Libraries} (c : Client) (before : list Call)
    (q : Query) : result (list Result) :=
  match on_query c before q with
  | Err e => Err e
  | Ok response =>
      match Response_Error response with
      | Some e => Err e
      | None => Ok (Results response)
      end
  end.

Definition show_query (hook : InfulxDBHook) : Query :=
  {| Command := "SHOW DATABASES"; QDatabase := database hook |}.

Definition create_query (hook : InfulxDBHook) : Query :=
  {| Command := "create database " ++ database hook;
     QDatabase := database hook |}.

(** The calls made between two worlds. *)
Definition new_calls (w w' : World) : list Call :=
  drop (length (calls w)) (calls w').

Definition call_points (c : Call) : list Point :=
  match c with
  | CallWrite bp _ => Points bp
  | _ => []
  end.

Definition call_tags (l : loc) (c : Call) : option TagMap :=
  match c with
  | CallWrite _ seen => seen !! l
  | _ => None
  end.

Definition call_query (c : Call) : option Query :=
  match c with
  | CallQuery q => Some q
  | _ => None
  end.

(** ** Stand-ins used to run the definitions on examples *)

(** [Level.String] as logrus defines it. *)
Definition logrus_Level_String (l : logrus_Level) : string :=
  match l with
  | 0%N => "panic"
  | 1%N => "fatal"
  | 2%N => "error"
  | 3%N => "warning"
  | 4%N => "info"
  | 5%N => "debug"
  | _ => "unknown"
  end.

(** [Response.Error] as the client defines it: the response's own error,
    or else the first error among its results. *)
Definition influxdb_Response_Error (r : Response) : option error :=
  match ResponseErr r with
  | Some e => Some e
  | None => list_find is_Some (ResultErr <$> Results r) ≫= snd
  end.

(** A server that holds the databases [dbs], accepts every statement and
    every write. *)
Definition serving (dbs : list string) : Client :=
  {| on_ping := λ _, None;
     on_query := λ _ _,
       Ok {| Results :=
               [ {| Series :=
                      [ {| RowName := "databases"; Columns := ["name"];
                           Values := (λ d, [IString d]) <$> dbs |} ];
                    ResultErr := None |} ];
             ResponseErr := None |};
     on_write := λ _ _ _, None |}.

(** A server that cannot be reached: every call fails in the transport. *)
Definition unreachable : Client :=
  let e := {| err_type := "*url.Error"; err_msg := "connection refused" |} in
  {| on_ping := λ _, Some e;
     on_query := λ _ _, Err e;
     on_write := λ _ _ _, Some e |}.

Definition example_libs (c : Client) : Libraries :=
  {| Level_String := logrus_Level_String;
     Response_Error := influxdb_Response_Error;
     url_Parse := Ok;
     influxdb_NewClient := λ _, Ok c |}.

Definition world0 : World :=
  {| mem := ∅; calls := []; clock := 1446000000; environ := ∅ |}.

(** What [databaseExists] makes of the outcome of its query. *)
Definition exists_verdict (db : string) (r : result (list Result))
  : option error :=
  match r with
  | Err e => Some e
  | Ok [] => Some (errors_New "Missing results from InfluxDB query response")
  | Ok (r0 :: _) =>
      match Series r0 with
      | [] => Some (errors_New "Missing series from InfluxDB query response")
      | s0 :: _ =>
          if values_name db (Values s0) then None
          else Some (errors_New "No database exists")
      end
  end.

(** A logger on a server that holds the database "logrus". *)
Definition example_libs_ok : Libraries := example_libs (serving ["logrus"]).

Definition example_world : World :=
  {| mem := {[ 1%positive := {[ "host" := "web1" ]} ]}; calls := [];
     clock := 1446000000; environ := ∅ |}.

Definition example_hook : InfulxDBHook :=
  {| client := Some (serving ["logrus"]); database := "logrus";
     tags := Some 1%positive |}.

Definition example_entry : Entry :=
  {| Data := {[ "logger" := IString "diskmon";
                "server_name" := IString "db1" ]};
     Level := WarnLevel; Message := "disk low" |}.

(** A caller whose default tags already name a logger and a level, and an
    entry without fields. *)
Definition default_tags : TagMap :=
  {[ "logger" := "base"; "level" := "none" ]}.

Definition tagged_world : World :=
  {| mem := {[ 1%positive := default_tags ]};
     calls := []; clock := 1446000000; environ := ∅ |}.

Definition plain_entry : Entry :=
  {| Data := ∅; Level := InfoLevel; Message := "started" |}.

Definition hook_on (c : Client) : InfulxDBHook :=
  {| client := Some c; database := "logrus"; tags := Some 1%positive |}.

(** Entries carrying a request, a nil request pointer and a string where
    the request is expected. *)
Definition request_entry (v : iface) : Entry :=
  {| Data := {[ "http_request" := v ]}; Level := ErrorLevel;
     Message := "handler failed" |}.

(** What a constructor called with [db] and [tg] must have produced: when
    it returns a hook, the hook's database is [db], or "logrus" for an empty
    [db], and its tag map is the caller's, or a new empty map for nil. *)
Definition defaults_hold (db : string) (tg : option loc)
    (r : outcome (result InfulxDBHook) * World) : Prop :=
  match r with
  | (Returns (Ok hook), w') =>
      database hook = (if decide (db = "") then "logrus" else db) ∧
      match tg with
      | None => hook_tags w' hook = Some ∅
      | Some l => tags hook = Some l
      end
  | (Returns (Err _), _) => True
  | (Panics _, _) => False
  end.

(** The address [NewInfluxDBHook] parses, the configuration it hands to
    [NewClient], and the database name both constructors settle on. *)
Definition hook_address (hostname : string) : string :=
  "http://" ++ hostname ++ ":" ++ pretty DefaultPort.

Definition hook_config (u : string) (w : World) : Config :=
  {| URL := u;
     Username := default "" (environ w !! "INFLUX_USER");
     Password := default "" (environ w !! "INFLUX_PWD");
     Timeout_ms := 100 |}.

Definition effective_database (db : string) : string :=
  if decide (db = "") then DefaultDatabase else db.

(** The world after the constructors have settled the tags argument, and
    the reference the hook then holds. *)
Definition tags_settled (tg : option loc) (w : World) : World :=
  match tg with
  | Some _ => w
  | None => set_mem (<[fresh (dom (mem w)) := ∅]> (mem w)) w
  end.

Definition tags_ref (tg : option loc) (w : World) : option loc :=
  match tg with
  | Some l => Some l
  | None => Some (fresh (dom (mem w)))
  end.

(** A hook value made without a constructor. *)
Definition zero_hook : InfulxDBHook :=
  {| client := None; database := ""; tags := None |}.

(** A server that answers queries like [serving] does but refuses every
    write. *)
Definition refusing_writes (dbs : list string) : Client :=
  {| on_ping := on_ping (serving dbs);
     on_query := on_query (serving dbs);
     on_write := λ _ _ _, Some (errors_New "write refused") |}.

(** Libraries in which the address does not parse. *)
Definition example_libs_no_url : Libraries :=
  {| Level_String := logrus_Level_String;
     Response_Error := influxdb_Response_Error;
     url_Parse := λ _, Err (errors_New "invalid URL");
     influxdb_NewClient := λ _, Ok (serving []) |}.

(** A server that lists "logrus", but only in the second series of its
    answer. *)
Definition listing_later : Client :=
  {| on_ping := λ _, None;
     on_query := λ _ _,
       Ok {| Results :=
               [ {| Series :=
                      [ {| RowName := "databases"; Columns := ["name"];
                           Values := [[IString "_internal"]] |};
                        {| RowName := "more"; Columns := ["name"];
                           Values := [[IString "logrus"]] |} ];
                    ResultErr := None |} ];
             ResponseErr := None |};
     on_write := λ _ _ _, None |}.

(** The hook the connecting constructor builds on the client [c]. *)
Definition made_hook (c : Client) (db : string) (tg : option loc) (w : World)
  : InfulxDBHook :=
  {| client := Some c; database := effective_database db;
     tags := tags_ref tg w |}.

(** The database is there for [hook]: the check has found it, or the create
    statement sent after the check has succeeded.  [before] are the calls
    made up to the check. *)
Definition provisioned `{Libraries} (c : Client) (before : list Call)
    (hook : InfulxDBHook) : Prop :=
  exists_verdict (database hook)
    (query_outcome c before (show_query hook)) = None ∨
  ∃ rs,
    query_outcome c (before ++ [CallQuery (show_query hook)])
      (create_query hook) = Ok rs.

(** ** Properties of [Fire] *)

Section FireFacts.
Context `{Libraries}.

Lemma hook_ok_inv w hook :
  hook_ok w hook = true →
  ∃ c l m, client hook = Some c ∧ tags hook = Some l ∧ mem w !! l = Some m.
Proof.
  unfold hook_ok. destruct (client hook) as [c|]; [|done].
  destruct (tags hook) as [l|]; [|done].
  intros [m Hm]%bool_decide_eq_true. eauto 6.
Qed.

Lemma Fire_eq hook e w c l m :
  client hook = Some c → tags hook = Some l → mem w !! l = Some m →
  let σ := <[l := fire_tags e m]> (mem w) in
  Fire hook e w =
    (Returns (on_write c (calls w) (fire_batch hook e (clock w)) σ),
     log_call (CallWrite (fire_batch hook e (clock w)) σ) (set_mem σ w)).
Proof.
  intros Hc Hl Hm σ. subst σ.
  unfold Fire, fire_batch, fire_point, fire_fields, fire_tags.
  unfold bind, time_Now, client_Write. rewrite Hc, Hl. simpl.
  unfold map_assign at 1. rewrite Hm. simpl.
  destruct (getField (Data e) "logger") as [lg [|]];
    destruct (getField (Data e) "server_name") as [sn [|]];
    destruct (getRequest (Data e) "http_request") as [rq [|]];
    simpl; unfold map_assign, ret; simpl;
    rewrite ?lookup_insert_eq; simpl; rewrite ?lookup_insert_eq; simpl;
    rewrite ?insert_insert_eq;
    by destruct (on_write c _ _ _).
Qed.

End FireFacts.

Section FireClaims.
Context `{Libraries}.

Lemma Fire_ok hook e w :
  hook_ok w hook = true →
  ∃ c l m,
    client hook = Some c ∧ tags hook = Some l ∧ mem w !! l = Some m ∧
    let σ := <[l := fire_tags e m]> (mem w) in
    let p := fire_point hook e (clock w) in
    Fire_writes hook e w p σ (on_write c (calls w) (batch_of hook p) σ)
      (log_call (CallWrite (batch_of hook p) σ) (set_mem σ w)) ∧
    tags_seen p σ = Some (fire_tags e m).
Proof.
  intros (c & l & m & Hc & Hl & Hm)%hook_ok_inv.
  exists c, l, m. repeat split; try done.
  - by apply Fire_eq.
  - unfold tags_seen. simpl. rewrite Hl. simpl. apply lookup_insert_eq.
Qed.

Lemma fire_tags_level e m :
  fire_tags e m !! "level" = Some (Level_String (Level e)).
Proof.
  unfold fire_tags.
  destruct (getField (Data e) "logger") as [lg [|]];
    destruct (getField (Data e) "server_name") as [sn [|]]; simpl;
    rewrite ?lookup_insert_ne by done; apply lookup_insert_eq.
Qed.

Lemma getField_Some d k s :
  d !! k = Some (IString s) → getField d k = (s, true).
Proof. unfold getField. by intros ->. Qed.

Lemma getField_None d k :
  (∀ s, d !! k ≠ Some (IString s)) → getField d k = ("", false).
Proof.
  unfold getField. intros Hno.
  destruct (d !! k) as [[]|]; try done. by destruct (Hno s).
Qed.

Lemma getRequest_Some d k rq :
  d !! k = Some (IRequest (Some rq)) → getRequest d k = (Some rq, true).
Proof. unfold getRequest. by intros ->. Qed.

Lemma getRequest_None d k :
  (∀ rq, d !! k ≠ Some (IRequest (Some rq))) → getRequest d k = (None, false).
Proof.
  unfold getRequest. intros Hno.
  destruct (d !! k) as [[| | | |[rq|]|]|]; try done. by destruct (Hno rq).
Qed.

(** C1: the point [Fire] writes has a field "extras" holding the entry's
    whole field mapping, whatever that mapping contains (the keys "logger",
    "server_name" and "http_request" included). *)
Theorem Fire_extras_is_data hook e w :
  hook_ok w hook = true →
  ∃ p seen r w',
    Fire_writes hook e w p seen r w' ∧
    Fields p !! "extras" = Some (IFields (Data e)).
Proof.
  intros Hok. destruct (Fire_ok hook e w Hok)
    as (c & l & m & _ & _ & _ & Hw & _).
  eexists _, _, _, _. split; [exact Hw|].
  simpl. unfold fire_fields. apply lookup_insert_eq.
Qed.

(** C2: the point [Fire] writes carries the tag "level", and its value is
    the string form of the entry's level; this holds for every level, the
    six of [Levels] among them. *)
Theorem Fire_level_tag hook e w :
  hook_ok w hook = true →
  ∃ p seen tg r w',
    Fire_writes hook e w p seen r w' ∧
    tags_seen p seen = Some tg ∧
    tg !! "level" = Some (Level_String (Level e)).
Proof.
  intros Hok. destruct (Fire_ok hook e w Hok)
    as (c & l & m & _ & _ & _ & Hw & Htg).
  eexists _, _, _, _, _. split; [exact Hw|]. split; [exact Htg|].
  apply fire_tags_level.
Qed.

(** C4: a non-nil request pointer at "http_request" becomes the field
    "http_request" of the written point; with a nil pointer, a value of
    another type or no such key the field is unset, [Fire] still returns,
    and what it returns is the client's answer to the write. *)
Theorem Fire_http_request hook e w :
  hook_ok w hook = true →
  ∃ c p seen r w',
    client hook = Some c ∧
    Fire_writes hook e w p seen r w' ∧
    r = on_write c (calls w) (batch_of hook p) seen ∧
    (∀ rq, Data e !! "http_request" = Some (IRequest (Some rq)) →
           Fields p !! "http_request" = Some (IRequest (Some rq))) ∧
    ((∀ rq, Data e !! "http_request" ≠ Some (IRequest (Some rq))) →
     Fields p !! "http_request" = None).
Proof.
  intros Hok. destruct (Fire_ok hook e w Hok)
    as (c & l & m & Hc & _ & _ & Hw & _).
  eexists c, _, _, _, _. split; [exact Hc|]. split; [exact Hw|].
  split; [done|]. simpl. unfold fire_fields. split.
  - intros rq Hrq. rewrite (getRequest_Some _ _ _ Hrq). simpl.
    rewrite lookup_insert_ne by done. apply lookup_insert_eq.
  - intros Hno. rewrite (getRequest_None _ _ Hno). simpl.
    by rewrite lookup_insert_ne, lookup_singleton_ne.
Qed.

(** C8: [Fire] returns exactly what the client's write returned, the error
    when the write fails and nil when it succeeds; the write is the only
    call it makes, so there is no other error to drop. *)
Theorem Fire_returns_write_error hook e w :
  hook_ok w hook = true →
  ∃ c p seen r w',
    client hook = Some c ∧
    Fire_writes hook e w p seen r w' ∧
    r = on_write c (calls w) (batch_of hook p) seen ∧
    new_calls w w' = [CallWrite (batch_of hook p) seen].
Proof.
  intros Hok. destruct (Fire_ok hook e w Hok)
    as (c & l & m & Hc & _ & _ & Hw & _).
  eexists c, _, _, _, _. split; [exact Hc|]. split; [exact Hw|].
  split; [done|]. unfold new_calls. simpl. by rewrite drop_app_length.
Qed.

End FireClaims.

Lemma Fire_extras_is_data_witness :
  hook_ok example_world example_hook = true ∧
  ∃ p seen r w',
    Fire_writes (H := example_libs_ok) example_hook example_entry
      example_world p seen r w' ∧
    Fields p !! "extras" = Some (IFields (Data example_entry)).
Proof.
  split; [reflexivity|]. apply Fire_extras_is_data. reflexivity.
Defined.

Lemma Fire_level_tag_witness :
  hook_ok example_world example_hook = true ∧
  ∃ p seen tg r w',
    Fire_writes (H := example_libs_ok) example_hook example_entry
      example_world p seen r w' ∧
    tags_seen p seen = Some tg ∧ tg !! "level" = Some "warning".
Proof.
  split; [reflexivity|].
  apply (Fire_level_tag (H := example_libs_ok)). reflexivity.
Defined.

Lemma Fire_http_request_witness :
  hook_ok example_world example_hook = true ∧
  ∃ c p seen r w',
    client example_hook = Some c ∧
    Fire_writes (H := example_libs_ok) example_hook example_entry
      example_world p seen r w' ∧
    r = on_write c (calls example_world) (batch_of example_hook p) seen ∧
    (∀ rq, Data example_entry !! "http_request" = Some (IRequest (Some rq)) →
           Fields p !! "http_request" = Some (IRequest (Some rq))) ∧
    ((∀ rq, Data example_entry !! "http_request" ≠ Some (IRequest (Some rq))) →
     Fields p !! "http_request" = None).
Proof.
  split; [reflexivity|]. apply Fire_http_request. reflexivity.
Defined.

Lemma Fire_returns_write_error_witness :
  hook_ok example_world example_hook = true ∧
  ∃ c p seen r w',
    client example_hook = Some c ∧
    Fire_writes (H := example_libs_ok) example_hook example_entry
      example_world p seen r w' ∧
    r = on_write c (calls example_world) (batch_of example_hook p) seen ∧
    new_calls example_world w' = [CallWrite (batch_of example_hook p) seen].
Proof.
  split; [reflexivity|]. apply Fire_returns_write_error. reflexivity.
Defined.

Section TagClaims.
Context `{Libraries}.

Lemma fire_tags_logger e m :
  fire_tags e m !! "logger" =
    if (getField (Data e) "logger").2
    then Some (getField (Data e) "logger").1 else m !! "logger".
Proof.
  unfold fire_tags.
  destruct (getField (Data e) "logger") as [lg [|]];
    destruct (getField (Data e) "server_name") as [sn [|]]; simpl;
    rewrite ?(lookup_insert_ne _ "server_name") by done;
    rewrite ?lookup_insert_eq, ?(lookup_insert_ne _ "level") by done; done.
Qed.

Lemma fire_tags_server_name e m :
  fire_tags e m !! "server_name" =
    if (getField (Data e) "server_name").2
    then Some (getField (Data e) "server_name").1 else m !! "server_name".
Proof.
  unfold fire_tags.
  destruct (getField (Data e) "logger") as [lg [|]];
    destruct (getField (Data e) "server_name") as [sn [|]]; simpl;
    rewrite ?lookup_insert_eq, ?(lookup_insert_ne _ "logger"),
      ?(lookup_insert_ne _ "level") by done; done.
Qed.

Lemma fire_tags_named e m k :
  k = "logger" ∨ k = "server_name" →
  fire_tags e m !! k =
    if (getField (Data e) k).2 then Some (getField (Data e) k).1 else m !! k.
Proof.
  intros [-> | ->]; [apply fire_tags_logger | apply fire_tags_server_name].
Qed.

(** A key that [Fire] does not set keeps the value it had. *)
Lemma fire_tags_kept e m k :
  k ≠ "level" →
  (k = "logger" ∨ k = "server_name" → (getField (Data e) k).2 = false) →
  fire_tags e m !! k = m !! k.
Proof.
  intros Hlevel Hnamed.
  destruct (decide (k = "logger")) as [->|Hlg].
  { rewrite fire_tags_logger, Hnamed; auto. }
  destruct (decide (k = "server_name")) as [->|Hsn].
  { rewrite fire_tags_server_name, Hnamed; auto. }
  unfold fire_tags.
  destruct (getField (Data e) "logger") as [lg [|]];
    destruct (getField (Data e) "server_name") as [sn [|]]; simpl;
    by rewrite ?lookup_insert_ne by done.
Qed.

(** [Fire] never removes a key. *)
Lemma fire_tags_grows e m k :
  is_Some (m !! k) → is_Some (fire_tags e m !! k).
Proof.
  intros Hk. unfold fire_tags.
  destruct (getField (Data e) "logger") as [lg [|]];
    destruct (getField (Data e) "server_name") as [sn [|]]; simpl;
    rewrite ?lookup_insert_is_Some'; tauto.
Qed.

(** C3, amended: a string at "logger" (or "server_name") in the entry's
    fields becomes the tag of that name on the written point; when the key
    is absent or holds a value that is not a string, [Fire] does not set the
    tag, and the written point has for it what the hook's tag map held
    before the call, so the tag is unset only if the map had no such key. *)
Theorem Fire_named_tags hook e w k :
  hook_ok w hook = true →
  k = "logger" ∨ k = "server_name" →
  ∃ m p seen tg r w',
    hook_tags w hook = Some m ∧
    Fire_writes hook e w p seen r w' ∧
    tags_seen p seen = Some tg ∧
    (∀ s, Data e !! k = Some (IString s) → tg !! k = Some s) ∧
    ((∀ s, Data e !! k ≠ Some (IString s)) → tg !! k = m !! k).
Proof.
  intros Hok Hk. destruct (Fire_ok hook e w Hok)
    as (c & l & m & _ & Hl & Hm & Hw & Htg).
  exists m. eexists _, _, _, _, _. split.
  { unfold hook_tags. by rewrite Hl. }
  split; [exact Hw|]. split; [exact Htg|].
  rewrite (fire_tags_named e m k Hk). split.
  - intros s Hs. by rewrite (getField_Some _ _ _ Hs).
  - intros Hno. by rewrite (getField_None _ _ Hno).
Qed.

End TagClaims.

Lemma Fire_named_tags_witness :
  hook_ok example_world example_hook = true ∧
  ("logger" = "logger" ∨ "logger" = "server_name") ∧
  ∃ m p seen tg r w',
    hook_tags example_world example_hook = Some m ∧
    Fire_writes (H := example_libs_ok) example_hook example_entry
      example_world p seen r w' ∧
    tags_seen p seen = Some tg ∧
    (∀ s, Data example_entry !! "logger" = Some (IString s) →
          tg !! "logger" = Some s) ∧
    ((∀ s, Data example_entry !! "logger" ≠ Some (IString s)) →
     tg !! "logger" = m !! "logger").
Proof.
  split; [reflexivity|]. split; [left; reflexivity|].
  apply Fire_named_tags; [reflexivity | left; reflexivity].
Defined.

(** C3 as stated fails: a hook made with the default tag "logger" = "base"
    fires an entry that has no fields, and the point it writes has the tag
    "logger", equal to "base". *)
Lemma Fire_keeps_default_logger :
  ∃ hook p seen tg r w',
    NewWithClientInfulxDBHook (H := example_libs_ok) (Some (serving []))
      "logrus" (Some 1%positive) tagged_world
      = (Returns (Ok hook), tagged_world) ∧
    Fire_writes (H := example_libs_ok) hook plain_entry tagged_world
      p seen r w' ∧
    tags_seen p seen = Some tg ∧
    Data plain_entry !! "logger" = None ∧
    tg !! "logger" = Some "base".
Proof.
  eexists. eexists _, _, _, _, _.
  split; [reflexivity|].
  split; [split; vm_compute; reflexivity|].
  split; [vm_compute; reflexivity|].
  split; vm_compute; reflexivity.
Qed.

(** ** The existence check and the creation of the database *)

Lemma row_names_spec db row : row_names db row = true ↔ IString db ∈ row.
Proof.
  induction row as [|val rest IH]; simpl.
  - split; [done | by intros ?%elem_of_nil].
  - rewrite elem_of_cons.
    destruct val as [| s | | | |];
      try (rewrite IH; split; [by right | by intros [?|?]]).
    destruct (decide (s = db)) as [->|Hne]; [split; [by left | done]|].
    rewrite IH. split; [by right | intros [?|?]; [congruence | done]].
Qed.

Lemma values_name_spec db values :
  values_name db values = true ↔ ∃ row, row ∈ values ∧ IString db ∈ row.
Proof.
  induction values as [|value rest IH]; simpl.
  - split; [done | by intros (? & ?%elem_of_nil & _)].
  - destruct (row_names db value) eqn:Hrow.
    + apply row_names_spec in Hrow. split; [|done].
      intros _. exists value. split; [left | done].
    + rewrite IH. split.
      * intros (row & Hin & Hcell). exists row. split; [by right | done].
      * intros (row & Hin & Hcell). apply elem_of_cons in Hin as [->|Hin].
        -- apply row_names_spec in Hcell. congruence.
        -- by exists row.
Qed.

Section QueryClaims.
Context `{Libraries}.

Lemma queryDB_eq hook cmd w c :
  client hook = Some c →
  let q := {| Command := cmd; QDatabase := database hook |} in
  queryDB hook cmd w =
    (Returns (query_outcome c (calls w) q), log_call (CallQuery q) w).
Proof.
  intros Hc q. unfold queryDB, bind, client_Query, query_outcome.
  rewrite Hc. fold q. destruct (on_query c (calls w) q) as [resp|e]; [|done].
  by destruct (Response_Error resp).
Qed.

Lemma databaseExists_eq hook w c :
  client hook = Some c →
  databaseExists hook w =
    (Returns (exists_verdict (database hook)
                (query_outcome c (calls w) (show_query hook))),
     log_call (CallQuery (show_query hook)) w).
Proof.
  intros Hc. unfold databaseExists, bind.
  rewrite (queryDB_eq _ _ _ _ Hc). fold (show_query hook).
  destruct (query_outcome c (calls w) (show_query hook))
    as [[|r0 rest]|e]; simpl; try done.
  destruct (Series r0) as [|s0 srest]; [done|].
  by destruct (values_name (database hook) (Values s0)).
Qed.

Lemma autocreateDatabase_eq hook w c :
  client hook = Some c →
  let w1 := log_call (CallQuery (show_query hook)) w in
  autocreateDatabase hook w =
    match exists_verdict (database hook)
            (query_outcome c (calls w) (show_query hook)) with
    | None => (Returns None, w1)
    | Some _ =>
        (Returns match query_outcome c (calls w1) (create_query hook) with
                 | Err e => Some e
                 | Ok _ => None
                 end,
         log_call (CallQuery (create_query hook)) w1)
    end.
Proof.
  intros Hc w1. unfold autocreateDatabase, bind.
  rewrite (databaseExists_eq _ _ _ Hc). fold w1.
  destruct (exists_verdict _ _); [|done].
  rewrite (queryDB_eq _ _ _ _ Hc). fold (create_query hook).
  by destruct (query_outcome c (calls w1) (create_query hook)).
Qed.

(** C5, amended: the check returns nil exactly when the SHOW DATABASES
    query succeeds and a string cell among the value rows of the first
    result's first series equals the hook's database name.  Otherwise it
    returns an error: for a failed query the query's own error, unchanged
    and of whatever type the client gave it; for no results, for a first
    result without series and for no matching cell an [errors.New] error,
    of one and the same type in these three cases. *)
Theorem databaseExists_verdict hook w c :
  client hook = Some c →
  let out := query_outcome c (calls w) (show_query hook) in
  ∃ r,
    databaseExists hook w =
      (Returns r, log_call (CallQuery (show_query hook)) w) ∧
    (r = None ↔
     ∃ r0 rest s0 srest row,
       out = Ok (r0 :: rest) ∧ Series r0 = s0 :: srest ∧
       row ∈ Values s0 ∧ IString (database hook) ∈ row) ∧
    (∀ e, out = Err e → r = Some e) ∧
    (out = Ok [] →
     r = Some (errors_New "Missing results from InfluxDB query response")) ∧
    (∀ r0 rest, out = Ok (r0 :: rest) → Series r0 = [] →
     r = Some (errors_New "Missing series from InfluxDB query response")) ∧
    (∀ r0 rest s0 srest,
       out = Ok (r0 :: rest) → Series r0 = s0 :: srest →
       (∀ row, row ∈ Values s0 → IString (database hook) ∉ row) →
       r = Some (errors_New "No database exists")) ∧
    (∀ e, r = Some e → out = Err e ∨ err_type e = "*errors.errorString").
Proof.
  intros Hc out. eexists. split; [by apply databaseExists_eq|].
  fold out. destruct out as [[|r0 rest]|e] eqn:Hout; simpl.
  - split_and!; try (by intros; simplify_eq; congruence).
    + split; [done | by intros (? & ? & ? & ? & ? & [=] & _)].
    + intros e [= <-]. by right.
  - destruct (Series r0) as [|s0 srest] eqn:Hser.
    + split_and!; try (by intros; simplify_eq; congruence).
      * split; [done|]. intros (? & ? & ? & ? & ? & ? & ? & _).
        simplify_eq. congruence.
      * intros e [= <-]. by right.
    + destruct (values_name (database hook) (Values s0)) eqn:Hval.
      * apply values_name_spec in Hval as (row & Hin & Hcell).
        split_and!; try (by intros; simplify_eq; congruence).
        -- split; [|done]. intros _. by exists r0, rest, s0, srest, row.
        -- intros r0' rest' s0' srest' [= <- <-] Hs Hno.
           rewrite Hser in Hs. injection Hs as <- <-.
           by destruct (Hno row Hin).
      * split_and!; try (by intros; simplify_eq; congruence).
        -- split; [done|].
           intros (r0' & rest' & s0' & srest' & row & [= <- <-] & Hs & Hin
                   & Hcell).
           rewrite Hser in Hs. injection Hs as <- <-.
           assert (values_name (database hook) (Values s0) = true)
             by (apply values_name_spec; eauto).
           congruence.
        -- intros e [= <-]. by right.
  - split_and!; try (by intros; simplify_eq; congruence).
    + split; [done | by intros (? & ? & ? & ? & ? & [=] & _)].
    + intros e' [= <-]. by left.
Qed.

(** C6: [autocreateDatabase] first runs the existence check.  When the
    check returns nil it makes no further call and returns nil.  When the
    check returns an error it issues one statement, "create database"
    followed by the hook's database name, and returns that statement's
    error if it fails and nil if it succeeds. *)
Theorem autocreateDatabase_creates_once hook w c :
  client hook = Some c →
  ∃ chk w1 r w',
    databaseExists hook w = (Returns chk, w1) ∧
    autocreateDatabase hook w = (Returns r, w') ∧
    match chk with
    | None =>
        r = None ∧ new_calls w w' = [CallQuery (show_query hook)]
    | Some _ =>
        new_calls w w' =
          [CallQuery (show_query hook); CallQuery (create_query hook)] ∧
        r = match query_outcome c (calls w1) (create_query hook) with
            | Err e => Some e
            | Ok _ => None
            end
    end.
Proof.
  intros Hc. eexists _, _. 
  destruct (exists_verdict (database hook)
              (query_outcome c (calls w) (show_query hook))) as [e|] eqn:Hv.
  - eexists _, _. split; [by apply databaseExists_eq|].
    split; [rewrite (autocreateDatabase_eq _ _ _ Hc), Hv; reflexivity|].
    rewrite Hv. split; [|done]. unfold new_calls. simpl.
    by rewrite <- app_assoc, drop_app_length.
  - eexists _, _. split; [by apply databaseExists_eq|].
    split; [rewrite (autocreateDatabase_eq _ _ _ Hc), Hv; reflexivity|].
    rewrite Hv. split; [done|]. unfold new_calls. simpl.
    by rewrite drop_app_length.
Qed.

End QueryClaims.

Lemma databaseExists_verdict_witness :
  client (hook_on (serving ["logrus"])) = Some (serving ["logrus"]) ∧
  ∃ r w',
    databaseExists (H := example_libs_ok) (hook_on (serving ["logrus"]))
      world0 = (Returns r, w') ∧
    r = None.
Proof.
  split; [reflexivity|].
  destruct (databaseExists_verdict (H := example_libs_ok)
              (hook_on (serving ["logrus"])) world0 (serving ["logrus"])
              eq_refl) as (r & Hrun & Hnil & _).
  exists r. eexists. split; [exact Hrun|].
  apply Hnil. eexists _, _, _, _, [IString "logrus"].
  split; [reflexivity|]. split; [reflexivity|].
  split; [vm_compute; left | left].
Defined.

(** C5 as stated fails: against a server that cannot be reached the check
    returns the transport's error, of type [*url.Error]; against a server
    whose list of databases is empty it returns the "No database exists"
    error made by [errors.New].  The two differ in type. *)
Lemma databaseExists_failure_types_differ :
  ∃ e1 e2,
    (databaseExists (H := example_libs_ok) (hook_on unreachable) world0).1
      = Returns (Some e1) ∧
    (databaseExists (H := example_libs_ok) (hook_on (serving [])) world0).1
      = Returns (Some e2) ∧
    e2 = errors_New "No database exists" ∧
    err_type e1 = "*url.Error" ∧
    err_type e1 ≠ err_type e2.
Proof.
  eexists _, _. split; [vm_compute; reflexivity|].
  split; [vm_compute; reflexivity|]. split; [reflexivity|].
  split; [reflexivity | discriminate].
Qed.

Lemma autocreateDatabase_creates_once_witness :
  client (hook_on (serving [])) = Some (serving []) ∧
  ∃ w',
    autocreateDatabase (H := example_libs_ok) (hook_on (serving [])) world0
      = (Returns None, w') ∧
    new_calls world0 w' =
      [CallQuery {| Command := "SHOW DATABASES"; QDatabase := "logrus" |};
       CallQuery {| Command := "create database logrus";
                    QDatabase := "logrus" |}].
Proof.
  split; [reflexivity|].
  destruct (autocreateDatabase_creates_once (H := example_libs_ok)
              (hook_on (serving [])) world0 (serving []) eq_refl)
    as (chk & w1 & r & w' & Hchk & Hrun & Hcase).
  injection Hchk as <- <-. destruct Hcase as [Hcalls ->].
  exists w'. split; [exact Hrun | exact Hcalls].
Defined.

(** ** Construction *)

Section Construction.
Context `{Libraries}.

Lemma NewInfluxDBHook_inv host db tg w :
  match NewInfluxDBHook host db tg w with
  | (Returns (Ok hook), w') =>
      database hook = (if decide (db = "") then DefaultDatabase else db) ∧
      is_Some (client hook) ∧
      match tg with
      | Some l => tags hook = Some l ∧ mem w' = mem w
      | None =>
          tags hook = Some (fresh (dom (mem w))) ∧
          mem w' = <[fresh (dom (mem w)) := ∅]> (mem w)
      end
  | (Returns (Err _), _) => True
  | (Panics _, _) => False
  end.
Proof.
  unfold NewInfluxDBHook, bind.
  destruct tg as [l|]; simpl;
    (destruct (url_Parse _) as [u|e]; [|done]); simpl;
    (destruct (influxdb_NewClient _) as [c|e]; [|done]); simpl;
    (destruct (on_ping c _) as [e|]; [done|]);
    erewrite (autocreateDatabase_eq _ _ c) by reflexivity;
    (destruct (exists_verdict _ _) as [e|]; [|by eauto]);
    (destruct (query_outcome c _ _) as [rs|e']; [|done]); simpl; by eauto.
Qed.

Lemma NewWithClientInfulxDBHook_given db tg w c :
  NewWithClientInfulxDBHook (Some c) db tg w =
    match tg with
    | Some l =>
        (Returns (Ok {| client := Some c;
                        database := if decide (db = "") then DefaultDatabase
                                    else db;
                        tags := Some l |}), w)
    | None =>
        (Returns (Ok {| client := Some c;
                        database := if decide (db = "") then DefaultDatabase
                                    else db;
                        tags := Some (fresh (dom (mem w))) |}),
         set_mem (<[fresh (dom (mem w)) := ∅]> (mem w)) w)
    end.
Proof. unfold NewWithClientInfulxDBHook, bind. by destruct tg. Qed.

End Construction.

(** Construction against a server without the database: the hook comes back
    with the default name, after one "create database logrus". *)
Example NewInfluxDBHook_defaults :
  ∃ hook w',
    NewInfluxDBHook (H := example_libs (serving [])) "localhost" "" None
      world0 = (Returns (Ok hook), w') ∧
    database hook = "logrus" ∧ hook_tags w' hook = Some ∅ ∧
    call_query <$> calls w' =
      [None;
       Some {| Command := "SHOW DATABASES"; QDatabase := "logrus" |};
       Some {| Command := "create database logrus";
               QDatabase := "logrus" |}].
Proof.
  eexists _, _. split; [vm_compute; reflexivity|].
  split; [reflexivity|]. split; vm_compute; reflexivity.
Qed.

(** ** Default tags and the shared tag map *)

Section SharedTags.
Context `{Libraries}.


Lemma hook_ok_intro w hook l m :
  is_Some (client hook) → tags hook = Some l → mem w !! l = Some m →
  hook_ok w hook = true.
Proof.
  intros [c Hc] Hl Hm. unfold hook_ok. rewrite Hc, Hl.
  apply bool_decide_eq_true. eauto.
Qed.


(** *** A run of entries on one hook *)

Lemma tag_states_length es m : length (tag_states es m) = length es.
Proof. revert m. induction es as [|e es IH]; intros m; simpl; auto. Qed.

Lemma tag_states_from es m (k : string) (j : nat) (tj : TagMap) :
  tag_states es m !! j = Some tj → is_Some (m !! k) → is_Some (tj !! k).
Proof.
  revert m j. induction es as [|e es IH]; intros m j; simpl; [done|].
  destruct j as [|j]; simpl.
  - intros [= <-]. apply fire_tags_grows.
  - intros Hj Hk. eapply IH; [exact Hj|]. by apply fire_tags_grows.
Qed.

Lemma tag_states_grow es m (k : string) (i j : nat) (ti tj : TagMap) :
  (i ≤ j)%nat →
  tag_states es m !! i = Some ti → tag_states es m !! j = Some tj →
  is_Some (ti !! k) → is_Some (tj !! k).
Proof.
  revert m i j. induction es as [|e es IH]; intros m i j Hij; simpl; [done|].
  destruct i as [|i]; destruct j as [|j]; simpl; try lia.
  - by intros [= <-] [= <-].
  - intros [= <-] Hj. by eapply tag_states_from.
  - apply IH. lia.
Qed.

Lemma tag_states_step es m (i : nat) (ti tj : TagMap) e :
  tag_states es m !! i = Some ti → tag_states es m !! S i = Some tj →
  es !! S i = Some e → tj = fire_tags e ti.
Proof.
  revert m i. induction es as [|e0 es IH]; intros m i; simpl; [done|].
  destruct i as [|i]; simpl.
  - intros [= <-]. destruct es as [|e1 es]; simpl; [done|]. congruence.
  - apply IH.
Qed.

Lemma tag_states_last es m (i : nat) (ti : TagMap) (k : string) :
  tag_states es m !! i = Some ti → is_Some (ti !! k) →
  is_Some (default m (last (tag_states es m)) !! k).
Proof.
  intros Hi Hk.
  destruct (last (tag_states es m)) as [tn|] eqn:Hlast; simpl.
  - rewrite last_lookup in Hlast.
    eapply (tag_states_grow es m k i); [|exact Hi|exact Hlast|exact Hk].
    apply lookup_lt_Some in Hi. lia.
  - apply last_None in Hlast. by rewrite Hlast in Hi.
Qed.

Lemma Fire_all_run hook es : ∀ w c l m,
  client hook = Some c → tags hook = Some l → mem w !! l = Some m →
  ∃ rs w' cs,
    Fire_all hook es w = (Returns rs, w') ∧
    calls w' = (calls w ++ cs)%list ∧
    length cs = length es ∧
    mem w' !! l = Some (default m (last (tag_states es m))) ∧
    ∀ (i : nat) ci, cs !! i = Some ci →
      ∃ e tg now seen,
        es !! i = Some e ∧ tag_states es m !! i = Some tg ∧
        ci = CallWrite (fire_batch hook e now) seen ∧ seen !! l = Some tg.
Proof.
  induction es as [|e es IH]; intros w c l m Hc Hl Hm.
  - exists [], w, []. simpl. rewrite app_nil_r. by split_and!.
  - simpl. unfold bind at 1. rewrite (Fire_eq hook e w c l m Hc Hl Hm).
    set (σ := <[l := fire_tags e m]> (mem w)).
    set (c0 := CallWrite (fire_batch hook e (clock w)) σ).
    set (w1 := log_call c0 (set_mem σ w)).
    assert (mem w1 !! l = Some (fire_tags e m)) as Hm1
      by apply lookup_insert_eq.
    destruct (IH w1 c l _ Hc Hl Hm1) as (rs & w' & cs & Hrun & Hcs & Hlen
      & Hmem & Hall).
    eexists (_ :: rs), w', (c0 :: cs).
    split; [unfold bind; by rewrite Hrun|].
    split; [rewrite Hcs; simpl; by rewrite <- app_assoc|].
    split; [simpl; by rewrite Hlen|]. split.
    + rewrite Hmem. f_equal.
      rewrite last_cons. by destruct (last (tag_states es (fire_tags e m))).
    + intros [|i] ci; simpl.
      * intros [= <-]. eexists e, _, _, σ. by split_and!.
      * apply Hall.
Qed.

Lemma tag_states_level es m (i : nat) (tg : TagMap) e :
  tag_states es m !! i = Some tg → es !! i = Some e →
  tg !! "level" = Some (Level_String (Level e)).
Proof.
  revert m i. induction es as [|e0 es IH]; intros m i; [done|].
  destruct i as [|i]; simpl.
  - intros [= <-] [= <-]. apply fire_tags_level.
  - apply IH.
Qed.

(** A tag that no entry up to [j] sets keeps its value up to [j]. *)
Lemma tag_states_keep es : ∀ m (j : nat) (tj : TagMap) (k s : string),
  k = "logger" ∨ k = "server_name" →
  m !! k = Some s →
  (∀ (n : nat) e', (n ≤ j)%nat → es !! n = Some e' →
     ∀ s', Data e' !! k ≠ Some (IString s')) →
  tag_states es m !! j = Some tj → tj !! k = Some s.
Proof.
  induction es as [|e0 es IH]; intros m j tj k s Hk Hm Hno; [done|].
  assert (fire_tags e0 m !! k = Some s) as Hm0.
  { rewrite (fire_tags_named e0 m k Hk).
    by rewrite (getField_None _ _ (Hno 0%nat e0 (Nat.le_0_l j) eq_refl)). }
  destruct j as [|j]; simpl.
  - by intros [= <-].
  - apply (IH _ j tj k s Hk Hm0). intros n e' Hn He'.
    apply (Hno (S n) e'); [lia | done].
Qed.

(** A string that entry [i] has at "logger" or "server_name" is the tag of
    that name at every later write up to [j], as long as no entry after [i]
    and up to [j] has a string there. *)
Lemma tag_states_carry es : ∀ m (i j : nat) e (tj : TagMap) (k s : string),
  k = "logger" ∨ k = "server_name" →
  (i ≤ j)%nat → es !! i = Some e → Data e !! k = Some (IString s) →
  (∀ (n : nat) e', (i < n ≤ j)%nat → es !! n = Some e' →
     ∀ s', Data e' !! k ≠ Some (IString s')) →
  tag_states es m !! j = Some tj → tj !! k = Some s.
Proof.
  induction es as [|e0 es IH]; intros m i j e tj k s Hk Hij He Hs Hno; [done|].
  destruct i as [|i].
  - injection He as ->.
    assert (fire_tags e m !! k = Some s) as Hm0.
    { rewrite (fire_tags_named e m k Hk).
      by rewrite (getField_Some _ _ _ Hs). }
    destruct j as [|j]; simpl.
    + by intros [= <-].
    + apply (tag_states_keep es _ j tj k s Hk Hm0). intros n e' Hn He'.
      apply (Hno (S n) e'); [lia | done].
  - destruct j as [|j]; [lia|]. simpl.
    apply (IH _ i j e tj k s Hk); [lia | done | done |].
    intros n e' Hn He'. apply (Hno (S n) e'); [lia | done].
Qed.

(** C9: the tag map of every point written is the hook's own map, and
    [Fire] changes that map in place: each call puts the entry's level, and
    its "logger" and "server_name" strings, into it.  So over a run of
    [Fire] calls on one hook a tag present on an earlier point is present
    on every later one and in the hook's map afterwards, and from one call
    to the next it keeps its value unless the entry sets it: "logger" and
    "server_name" taken from one entry are on the points of the later
    entries that do not have those fields, and the hook's map after the run
    is the tag map of the last point. *)
Theorem Fire_all_tags_persist hook es w :
  hook_ok w hook = true →
  ∃ l rs w',
    tags hook = Some l ∧
    Fire_all hook es w = (Returns rs, w') ∧
    length (new_calls w w') = length es ∧
    (∀ (i : nat) ci, new_calls w w' !! i = Some ci →
       ∃ p tg, call_points ci = [p] ∧ Tags p = tags hook ∧
               call_tags l ci = Some tg) ∧
    (∀ (i j : nat) ci cj (ti : TagMap) (k : string),
       (i ≤ j)%nat →
       new_calls w w' !! i = Some ci → new_calls w w' !! j = Some cj →
       call_tags l ci = Some ti → is_Some (ti !! k) →
       ∃ tj, call_tags l cj = Some tj ∧ is_Some (tj !! k)) ∧
    (∀ (i : nat) ci (ti : TagMap) (k : string),
       new_calls w w' !! i = Some ci →
       call_tags l ci = Some ti → is_Some (ti !! k) →
       ∃ m', hook_tags w' hook = Some m' ∧ is_Some (m' !! k)) ∧
    (∀ (i : nat) ci cj (ti : TagMap) e (k : string),
       new_calls w w' !! i = Some ci → new_calls w w' !! S i = Some cj →
       es !! S i = Some e → call_tags l ci = Some ti →
       k ≠ "level" →
       (k = "logger" ∨ k = "server_name" →
        ∀ s, Data e !! k ≠ Some (IString s)) →
       ∃ tj, call_tags l cj = Some tj ∧ tj !! k = ti !! k) ∧
    (∀ (i : nat) e ci,
       es !! i = Some e → new_calls w w' !! i = Some ci →
       ∃ tg, call_tags l ci = Some tg ∧
             tg !! "level" = Some (Level_String (Level e))) ∧
    (∀ (i j : nat) e cj (k s : string),
       k = "logger" ∨ k = "server_name" →
       (i ≤ j)%nat → es !! i = Some e →
       Data e !! k = Some (IString s) →
       (∀ (n : nat) e', (i < n ≤ j)%nat → es !! n = Some e' →
          ∀ s', Data e' !! k ≠ Some (IString s')) →
       new_calls w w' !! j = Some cj →
       ∃ tj, call_tags l cj = Some tj ∧ tj !! k = Some s) ∧
    (∀ c_last, last (new_calls w w') = Some c_last →
       hook_tags w' hook = call_tags l c_last).
Proof.
  intros (c & l & m & Hc & Hl & Hm)%hook_ok_inv.
  destruct (Fire_all_run hook es w c l m Hc Hl Hm)
    as (rs & w' & cs & Hrun & Hcs & Hlen & Hmem & Hall).
  assert (new_calls w w' = cs) as Hnew.
  { unfold new_calls. by rewrite Hcs, drop_app_length. }
  exists l, rs, w'. rewrite Hnew. split_and!; try done.
  - intros i ci Hi.
    destruct (Hall i ci Hi) as (e & tg & now & seen & _ & _ & -> & Hseen).
    by exists (fire_point hook e now), tg.
  - intros i j ci cj ti k Hij Hi Hj Hti Hk.
    destruct (Hall i ci Hi) as (ei & tgi & ? & ? & _ & Hsi & -> & Hseeni).
    destruct (Hall j cj Hj) as (ej & tgj & ? & ? & _ & Hsj & -> & Hseenj).
    simpl in *. exists tgj. split; [done|].
    assert (tgi = ti) as -> by congruence.
    by eapply (tag_states_grow es m k i j).
  - intros i ci ti k Hi Hti Hk.
    destruct (Hall i ci Hi) as (ei & tgi & ? & ? & _ & Hsi & -> & Hseeni).
    simpl in *. assert (tgi = ti) as -> by congruence.
    eexists. split; [unfold hook_tags; rewrite Hl; exact Hmem|].
    by eapply tag_states_last.
  - intros i ci cj ti e k Hi Hj He Hti Hlevel Hnamed.
    destruct (Hall i ci Hi) as (ei & tgi & ? & ? & _ & Hsi & -> & Hseeni).
    destruct (Hall (S i) cj Hj)
      as (ej & tgj & ? & ? & Hej & Hsj & -> & Hseenj).
    simpl in *. assert (tgi = ti) as -> by congruence.
    assert (ej = e) as -> by congruence.
    exists tgj. split; [done|].
    rewrite (tag_states_step es m i ti tgj e Hsi Hsj He).
    apply fire_tags_kept; [done|].
    intros Hk. by rewrite (getField_None _ _ (Hnamed Hk)).
  - intros i e ci He Hi.
    destruct (Hall i ci Hi) as (e' & tg & ? & ? & He' & Hts & -> & Hseen).
    exists tg. split; [done|]. by apply (tag_states_level es m i).
  - intros i j e cj k s Hk Hij He Hs Hno Hj.
    destruct (Hall j cj Hj) as (ej & tgj & ? & ? & _ & Hsj & -> & Hseenj).
    exists tgj. split; [done|].
    by apply (tag_states_carry es m i j e tgj k s).
  - intros c_last Hlast. unfold hook_tags. rewrite Hl. simpl. rewrite Hmem.
    rewrite last_lookup in Hlast.
    destruct (Hall _ c_last Hlast)
      as (e' & tg & ? & ? & _ & Hts & -> & Hseen).
    simpl. rewrite Hseen. f_equal.
    rewrite Hlen, <- (tag_states_length es m), <- last_lookup in Hts.
    by rewrite Hts.
Qed.

End SharedTags.


Lemma Fire_all_tags_persist_witness :
  hook_ok example_world example_hook = true ∧
  ∃ l rs w',
    tags example_hook = Some l ∧
    Fire_all (H := example_libs_ok) example_hook [example_entry; plain_entry]
      example_world = (Returns rs, w') ∧
    length (new_calls example_world w') = 2 ∧
    ∀ cj, new_calls example_world w' !! 1%nat = Some cj →
      ∃ tj, call_tags l cj = Some tj ∧
            tj !! "logger" = Some "diskmon" ∧
            tj !! "level" = Some "info" ∧
            hook_tags w' example_hook = Some tj.
Proof.
  split; [reflexivity|].
  destruct (Fire_all_tags_persist (H := example_libs_ok) example_hook
              [example_entry; plain_entry] example_world eq_refl)
    as (l & rs & w' & Hl & Hrun & Hlen & _ & _ & _ & _ & Hlevel & Hcarry
        & Hfinal).
  exists l, rs, w'. split; [exact Hl|]. split; [exact Hrun|].
  split; [exact Hlen|]. intros cj Hcj.
  destruct (Hcarry 0%nat 1%nat example_entry cj "logger" "diskmon")
    as (tj & Htj & Hlogger);
    [left; reflexivity | lia | reflexivity | reflexivity | | exact Hcj |].
  { intros n e' Hn He'. assert (n = 1%nat) as -> by lia.
    injection He' as <-. intros s'. discriminate. }
  destruct (Hlevel 1%nat plain_entry cj eq_refl Hcj) as (tj' & Htj' & Hlv).
  assert (tj' = tj) as -> by congruence.
  exists tj. split; [exact Htj|]. split; [exact Hlogger|].
  split; [exact Hlv|]. rewrite <- Htj. apply Hfinal.
  rewrite last_lookup, Hlen. exact Hcj.
Defined.

(** The entry "disk low" names a logger and a server; the entry "started"
    fired after it names neither, yet its point carries both tags, next to
    the hook's default tag and its own level. *)
Example Fire_all_leaks_tags :
  let w' := (Fire_all (H := example_libs_ok) example_hook
               [example_entry; plain_entry] example_world).2 in
  (new_calls example_world w' !! 1%nat) ≫= call_tags 1%positive
    = Some ({[ "host" := "web1"; "level" := "info"; "logger" := "diskmon";
               "server_name" := "db1" ]} : TagMap) ∧
  hook_tags w' example_hook
    = Some ({[ "host" := "web1"; "level" := "info"; "logger" := "diskmon";
               "server_name" := "db1" ]} : TagMap).
Proof. split; vm_compute; reflexivity. Qed.

(** The request of an entry reaches the point; a nil pointer, the nil
    interface and a string do not, and the write still succeeds. *)
Example Fire_http_request_cases :
  let fired v :=
    Fire (H := example_libs_ok) example_hook (request_entry v) example_world in
  let field v :=
    (last (calls (fired v).2)) ≫= λ c,
      (head (call_points c)) ≫= λ p, Fields p !! "http_request" in
  field (IRequest (Some 7%positive)) = Some (IRequest (Some 7%positive)) ∧
  field (IRequest None) = None ∧
  field INil = None ∧
  field (IString "GET /") = None ∧
  (fired (IRequest None)).1 = Returns None.
Proof. repeat split; vm_compute; reflexivity. Qed.

(** The address the connecting constructor parses. *)
Example default_address :
  "http://" ++ DefaultHost ++ ":" ++ pretty DefaultPort
  = "http://localhost:8086".
Proof. vm_compute. reflexivity. Qed.

(** Against a server that cannot be reached the connecting constructor
    returns the ping's error and no hook. *)
Example NewInfluxDBHook_unreachable :
  (NewInfluxDBHook (H := example_libs unreachable) "localhost" "" None
     world0).1
  = Returns (Err {| err_type := "*url.Error";
                    err_msg := "connection refused" |}).
Proof. vm_compute. reflexivity. Qed.

(** ** Further properties of [Fire] *)

Section FireMore.
Context `{Libraries}.

Lemma fire_fields_keys e (k : string) :
  is_Some (fire_fields e !! k) →
  k = "message" ∨ k = "extras" ∨ k = "http_request".
Proof.
  unfold fire_fields.
  destruct (getRequest (Data e) "http_request") as [rq [|]]; simpl;
    rewrite !lookup_insert_is_Some'; rewrite lookup_singleton_is_Some;
    intuition auto.
Qed.

Lemma fire_fields_message e :
  fire_fields e !! "message" = Some (IString (Message e)).
Proof.
  unfold fire_fields.
  destruct (getRequest (Data e) "http_request") as [rq [|]]; simpl;
    by rewrite !lookup_insert_ne, lookup_singleton_eq.
Qed.

(** X1: the one point [Fire] writes is of measurement "logrus" with
    precision "s" and the time read at the call; its field "message" is the
    entry's message, also when the entry has a field of that name; and it
    has no field besides "message", "extras" and "http_request", so the
    entry's own fields never become fields of the point. *)
Theorem Fire_point_shape hook e w :
  hook_ok w hook = true →
  ∃ p seen r w',
    Fire_writes hook e w p seen r w' ∧
    Measurement p = "logrus" ∧ Precision p = "s" ∧ Time p = clock w ∧
    Tags p = tags hook ∧
    Fields p !! "message" = Some (IString (Message e)) ∧
    ∀ k : string, is_Some (Fields p !! k) →
      k = "message" ∨ k = "extras" ∨ k = "http_request".
Proof.
  intros Hok. destruct (Fire_ok hook e w Hok)
    as (c & l & m & _ & _ & _ & Hw & _).
  eexists _, _, _, _. split; [exact Hw|]. simpl. split_and!; try done.
  - apply fire_fields_message.
  - apply fire_fields_keys.
Qed.

(** X2: the hook's other tags pass through: for every key except "level",
    "logger" and "server_name" the written point has what the hook's tag
    map had, and no key of that map is missing from the point. *)
Theorem Fire_default_tags_pass hook e w :
  hook_ok w hook = true →
  ∃ m p seen tg r w',
    hook_tags w hook = Some m ∧
    Fire_writes hook e w p seen r w' ∧
    tags_seen p seen = Some tg ∧
    (∀ k : string, k ≠ "level" → k ≠ "logger" → k ≠ "server_name" →
       tg !! k = m !! k) ∧
    (∀ k : string, is_Some (m !! k) → is_Some (tg !! k)).
Proof.
  intros Hok. destruct (Fire_ok hook e w Hok)
    as (c & l & m & _ & Hl & Hm & Hw & Htg).
  exists m. eexists _, _, _, _, _. split.
  { unfold hook_tags. by rewrite Hl. }
  split; [exact Hw|]. split; [exact Htg|]. split.
  - intros k Hlevel Hlg Hsn. apply fire_tags_kept; [done|].
    by intros [?|?].
  - intros k. apply fire_tags_grows.
Qed.

(** X3: [Fire] changes the hook's tag map and nothing else in the store.
    Whatever the write returns, the map afterwards is the one the client
    read at the write; every other map, the clock and the environment are
    as before, and the hook can be fired again. *)
Theorem Fire_frame hook e w :
  hook_ok w hook = true →
  ∃ l p seen tg r w',
    tags hook = Some l ∧
    Fire_writes hook e w p seen r w' ∧
    tags_seen p seen = Some tg ∧
    seen = mem w' ∧
    hook_tags w' hook = Some tg ∧
    (∀ l' : loc, l' ≠ l → mem w' !! l' = mem w !! l') ∧
    clock w' = clock w ∧ environ w' = environ w ∧
    hook_ok w' hook = true.
Proof.
  intros Hok. destruct (Fire_ok hook e w Hok)
    as (c & l & m & Hc & Hl & Hm & Hw & Htg).
  exists l. eexists _, _, _, _, _. split; [exact Hl|].
  split; [exact Hw|]. split; [exact Htg|]. split; [reflexivity|].
  assert (mem (log_call (CallWrite (batch_of hook (fire_point hook e (clock w)))
                           (<[l := fire_tags e m]> (mem w)))
                 (set_mem (<[l := fire_tags e m]> (mem w)) w)) !! l
          = Some (fire_tags e m)) as Hafter by apply lookup_insert_eq.
  split. { unfold hook_tags. rewrite Hl. exact Hafter. }
  split. { intros l' Hne. simpl. by rewrite lookup_insert_ne. }
  split; [reflexivity|]. split; [reflexivity|].
  eapply hook_ok_intro; [by rewrite Hc | exact Hl | exact Hafter].
Qed.

(** X4: a hook without a tag map cannot be fired: [Fire] panics at the
    assignment of "level", before it has called the client or changed
    anything. *)
Theorem Fire_nil_tags_panics hook e w :
  tags hook = None →
  Fire hook e w = (Panics "assignment to entry in nil map", w).
Proof.
  intros Hnil. unfold Fire, bind, time_Now. simpl.
  unfold map_assign at 1. by rewrite Hnil.
Qed.

Lemma fire_tags_twice e m : fire_tags e (fire_tags e m) = fire_tags e m.
Proof.
  apply map_eq. intros k.
  destruct (decide (k = "level")) as [->|Hlevel].
  { by rewrite !fire_tags_level. }
  destruct (decide (k = "logger")) as [->|Hlg].
  { rewrite (fire_tags_logger e (fire_tags e m)).
    destruct (getField (Data e) "logger").2 eqn:Hb; [|done].
    by rewrite fire_tags_logger, Hb. }
  destruct (decide (k = "server_name")) as [->|Hsn].
  { rewrite (fire_tags_server_name e (fire_tags e m)).
    destruct (getField (Data e) "server_name").2 eqn:Hb; [|done].
    by rewrite fire_tags_server_name, Hb. }
  apply fire_tags_kept; [done | by intros [?|?]].
Qed.

(** X5: firing the same entry twice in a row writes two points with the
    same fields, and the client reads the same store, hence the same tags,
    at both writes: the second call changes no tag. *)
Theorem Fire_same_entry_twice hook e w :
  hook_ok w hook = true →
  ∃ rs w' p1 p2 seen,
    Fire_all hook [e; e] w = (Returns rs, w') ∧
    new_calls w w' =
      [CallWrite (batch_of hook p1) seen; CallWrite (batch_of hook p2) seen] ∧
    Fields p1 = Fields p2 ∧ Tags p1 = Tags p2 ∧
    mem w' = seen.
Proof.
  intros (c & l & m & Hc & Hl & Hm)%hook_ok_inv.
  set (σ := <[l := fire_tags e m]> (mem w)).
  set (w1 := log_call (CallWrite (fire_batch hook e (clock w)) σ)
               (set_mem σ w)).
  assert (mem w1 !! l = Some (fire_tags e m)) as Hm1 by apply lookup_insert_eq.
  assert (<[l := fire_tags e (fire_tags e m)]> (mem w1) = σ) as Hσ.
  { simpl. subst σ. by rewrite insert_insert_eq, fire_tags_twice. }
  pose proof (Fire_eq hook e w c l m Hc Hl Hm) as H1.
  pose proof (Fire_eq hook e w1 c l _ Hc Hl Hm1) as H2.
  cbv zeta in H1, H2. fold σ in H1. fold w1 in H1. rewrite Hσ in H2.
  cbn [Fire_all]. unfold bind, ret. rewrite H1, H2.
  eexists _, _, (fire_point hook e (clock w)), (fire_point hook e (clock w1)),
    σ.
  split; [reflexivity|]. split_and!; try done.
  unfold new_calls. simpl. by rewrite <- app_assoc, drop_app_length.
Qed.

End FireMore.

Lemma Fire_point_shape_witness :
  hook_ok example_world example_hook = true ∧
  ∃ p seen r w',
    Fire_writes (H := example_libs_ok) example_hook example_entry
      example_world p seen r w' ∧
    Measurement p = "logrus" ∧ Precision p = "s" ∧
    Time p = clock example_world ∧ Tags p = tags example_hook ∧
    Fields p !! "message" = Some (IString (Message example_entry)) ∧
    ∀ k : string, is_Some (Fields p !! k) →
      k = "message" ∨ k = "extras" ∨ k = "http_request".
Proof.
  split; [reflexivity|]. apply Fire_point_shape. reflexivity.
Defined.

Lemma Fire_default_tags_pass_witness :
  hook_ok example_world example_hook = true ∧
  ∃ p seen tg r w',
    Fire_writes (H := example_libs_ok) example_hook example_entry
      example_world p seen r w' ∧
    tags_seen p seen = Some tg ∧ tg !! "host" = Some "web1".
Proof.
  split; [reflexivity|].
  destruct (Fire_default_tags_pass (H := example_libs_ok) example_hook
              example_entry example_world eq_refl)
    as (m & p & seen & tg & r & w' & Hm & Hw & Htg & Hpass & _).
  exists p, seen, tg, r, w'. split; [exact Hw|]. split; [exact Htg|].
  rewrite (Hpass "host") by discriminate.
  injection Hm as <-. reflexivity.
Defined.

Lemma Fire_frame_witness :
  hook_ok example_world (hook_on (refusing_writes [])) = true ∧
  ∃ p seen tg w',
    Fire_writes (H := example_libs_ok) (hook_on (refusing_writes []))
      example_entry example_world p seen
      (Some (errors_New "write refused")) w' ∧
    tags_seen p seen = Some tg ∧
    hook_tags w' (hook_on (refusing_writes [])) = Some tg ∧
    hook_ok w' (hook_on (refusing_writes [])) = true.
Proof.
  split; [reflexivity|].
  destruct (Fire_frame (H := example_libs_ok) (hook_on (refusing_writes []))
              example_entry example_world eq_refl)
    as (l & p & seen & tg & r & w' & _ & Hw & Htg & _ & Hafter & _ & _ & _
        & Hok).
  exists p, seen, tg, w'.
  assert (r = Some (errors_New "write refused")) as <-.
  { destruct Hw as [Hrun _]. apply (f_equal fst) in Hrun.
    vm_compute in Hrun. injection Hrun as <-. reflexivity. }
  split; [exact Hw|]. split; [exact Htg|]. split; [exact Hafter | exact Hok].
Defined.

Lemma Fire_nil_tags_panics_witness :
  tags zero_hook = None ∧
  Fire (H := example_libs_ok) zero_hook example_entry example_world
    = (Panics "assignment to entry in nil map", example_world).
Proof. split; [reflexivity|]. apply Fire_nil_tags_panics. reflexivity. Defined.

Lemma Fire_same_entry_twice_witness :
  hook_ok example_world example_hook = true ∧
  ∃ rs w' p1 p2 seen,
    Fire_all (H := example_libs_ok) example_hook
      [example_entry; example_entry] example_world = (Returns rs, w') ∧
    new_calls example_world w' =
      [CallWrite (batch_of example_hook p1) seen;
       CallWrite (batch_of example_hook p2) seen] ∧
    Fields p1 = Fields p2 ∧ Tags p1 = Tags p2 ∧ mem w' = seen.
Proof.
  split; [reflexivity|]. apply Fire_same_entry_twice. reflexivity.
Defined.

(** ** Further properties of the constructors and of the queries *)

Section ConstructionMore.
Context `{Libraries}.

Lemma new_calls_none (w w' : World) : calls w' = calls w → new_calls w w' = [].
Proof. intros Hc. unfold new_calls. rewrite Hc. apply drop_all. Qed.

Lemma new_calls_app (w w' : World) cs :
  calls w' = (calls w ++ cs)%list → new_calls w w' = cs.
Proof. intros Hc. unfold new_calls. by rewrite Hc, drop_app_length. Qed.

Lemma tags_settled_old tg w (l : loc) :
  is_Some (mem w !! l) → mem (tags_settled tg w) !! l = mem w !! l.
Proof.
  intros Hl. destruct tg as [l0|]; [done|]. simpl.
  rewrite lookup_insert_ne; [done|]. intros <-.
  apply elem_of_dom in Hl. by apply is_fresh in Hl.
Qed.

Lemma effective_database_twice db :
  effective_database (effective_database db) = effective_database db.
Proof. unfold effective_database, DefaultDatabase. by repeat case_decide. Qed.

Lemma NewInfluxDBHook_eq host db tg w :
  let w0 := tags_settled tg w in
  NewInfluxDBHook host db tg w =
    match url_Parse (hook_address host) with
    | Err e => (Returns (Err e), w0)
    | Ok u =>
        match influxdb_NewClient (hook_config u w) with
        | Err e => (Returns (Err e), w0)
        | Ok c =>
            match on_ping c (calls w) with
            | Some e => (Returns (Err e), log_call CallPing w0)
            | None =>
                let hook := {| client := Some c;
                               database := effective_database db;
                               tags := tags_ref tg w |} in
                match autocreateDatabase hook (log_call CallPing w0) with
                | (Returns None, w') => (Returns (Ok hook), w')
                | (Returns (Some e), w') => (Returns (Err e), w')
                | (Panics why, w') => (Panics why, w')
                end
            end
        end
    end.
Proof.
  unfold NewInfluxDBHook, bind, hook_address, hook_config, effective_database,
    tags_settled, tags_ref.
  destruct tg as [l|]; simpl;
    (destruct (url_Parse _) as [u|e]; [|done]); simpl;
    (destruct (influxdb_NewClient _) as [c|e]; [|done]); simpl;
    (destruct (on_ping c _) as [e|]; [done|]);
    by destruct (autocreateDatabase _ _) as [[[e|]|why] w'].
Qed.

(** X6: a constructor keeps the caller's tag map, it does not copy it.  Two
    hooks built over one map therefore share it: a "logger" or
    "server_name" that the first hook takes from its entry is on the point
    the second hook writes for an entry without that field. *)
Theorem hooks_share_caller_map c1 c2 db1 db2 l m w e1 e2 :
  mem w !! l = Some m →
  ∃ h1 h2 p1 seen1 r1 w1 p2 seen2 tg2 r2 w2,
    NewWithClientInfulxDBHook (Some c1) db1 (Some l) w
      = (Returns (Ok h1), w) ∧
    NewWithClientInfulxDBHook (Some c2) db2 (Some l) w
      = (Returns (Ok h2), w) ∧
    Fire_writes h1 e1 w p1 seen1 r1 w1 ∧
    Fire_writes h2 e2 w1 p2 seen2 r2 w2 ∧
    tags_seen p2 seen2 = Some tg2 ∧
    ∀ (k s : string),
      k = "logger" ∨ k = "server_name" →
      Data e1 !! k = Some (IString s) →
      (∀ s', Data e2 !! k ≠ Some (IString s')) →
      tg2 !! k = Some s.
Proof.
  intros Hm.
  set (h1 := {| client := Some c1; database := effective_database db1;
                tags := Some l |}).
  set (h2 := {| client := Some c2; database := effective_database db2;
                tags := Some l |}).
  assert (hook_ok w h1 = true) as Hok1
    by (apply (hook_ok_intro _ _ l m); simpl; eauto).
  destruct (Fire_ok h1 e1 w Hok1)
    as (c & l' & m' & _ & [= <-] & Hm' & Hw1 & _).
  assert (m' = m) as -> by congruence.
  set (σ1 := <[l := fire_tags e1 m]> (mem w)) in *.
  set (w1 := log_call _ (set_mem σ1 w)) in *.
  assert (mem w1 !! l = Some (fire_tags e1 m)) as Hm1
    by apply lookup_insert_eq.
  assert (hook_ok w1 h2 = true) as Hok2
    by (apply (hook_ok_intro _ _ l (fire_tags e1 m)); simpl; eauto).
  destruct (Fire_ok h2 e2 w1 Hok2)
    as (c' & l' & m' & _ & [= <-] & Hm2 & Hw2 & Htg2).
  assert (m' = fire_tags e1 m) as -> by congruence.
  exists h1, h2. eexists _, _, _, w1, _, _, _, _, _.
  split; [by rewrite NewWithClientInfulxDBHook_given|].
  split; [by rewrite NewWithClientInfulxDBHook_given|].
  split; [exact Hw1|]. split; [exact Hw2|]. split; [exact Htg2|].
  intros k s Hk Hs Hno.
  rewrite (fire_tags_named e2 _ k Hk), (getField_None _ _ Hno). simpl.
  by rewrite (fire_tags_named e1 _ k Hk), (getField_Some _ _ _ Hs).
Qed.

(** X7: two hooks built with nil tags get two different, new, empty maps;
    the maps that existed are untouched, and firing the first hook leaves
    the map of the second empty. *)
Theorem nil_tags_get_fresh_maps c1 c2 db1 db2 w e :
  ∃ h1 w1 h2 w2 l1 l2,
    NewWithClientInfulxDBHook (Some c1) db1 None w = (Returns (Ok h1), w1) ∧
    NewWithClientInfulxDBHook (Some c2) db2 None w1 = (Returns (Ok h2), w2) ∧
    tags h1 = Some l1 ∧ tags h2 = Some l2 ∧ l1 ≠ l2 ∧
    mem w !! l1 = None ∧ mem w !! l2 = None ∧
    (∀ l : loc, is_Some (mem w !! l) → mem w2 !! l = mem w !! l) ∧
    hook_tags w2 h1 = Some ∅ ∧ hook_tags w2 h2 = Some ∅ ∧
    ∃ p seen r w3,
      Fire_writes h1 e w2 p seen r w3 ∧ hook_tags w3 h2 = Some ∅.
Proof.
  set (l1 := fresh (dom (mem w))).
  set (σ1 := <[l1 := ∅]> (mem w) : Store).
  set (l2 := fresh (dom σ1)).
  set (σ2 := <[l2 := ∅]> σ1 : Store).
  assert (l1 ∉ dom (mem w)) as Hl1 by apply is_fresh.
  assert (l2 ∉ dom σ1) as Hl2 by apply is_fresh.
  assert (l1 ≠ l2) as Hne.
  { intros Heq. apply Hl2. rewrite <- Heq. subst σ1.
    apply elem_of_dom. rewrite lookup_insert_eq. eauto. }
  assert (mem w !! l2 = None) as Hnone2.
  { apply not_elem_of_dom. intros Hin. apply Hl2. subst σ1.
    apply elem_of_dom. rewrite lookup_insert_ne by done.
    by apply elem_of_dom. }
  set (h1 := {| client := Some c1; database := effective_database db1;
                tags := Some l1 |}).
  set (h2 := {| client := Some c2; database := effective_database db2;
                tags := Some l2 |}).
  set (w1 := set_mem σ1 w). set (w2 := set_mem σ2 w1).
  assert (mem w2 !! l1 = Some ∅) as Hm1.
  { simpl. subst σ2 σ1. rewrite lookup_insert_ne by done.
    apply lookup_insert_eq. }
  assert (mem w2 !! l2 = Some ∅) as Hm2 by apply lookup_insert_eq.
  assert (hook_ok w2 h1 = true) as Hok
    by (apply (hook_ok_intro _ _ l1 ∅); simpl; eauto).
  destruct (Fire_ok h1 e w2 Hok)
    as (c & l' & m' & _ & [= <-] & _ & Hw & _).
  exists h1, w1, h2, w2, l1, l2.
  split; [by rewrite NewWithClientInfulxDBHook_given|].
  split; [by rewrite NewWithClientInfulxDBHook_given|].
  split_and!; try done.
  - by apply not_elem_of_dom.
  - intros l Hl. simpl. subst σ2 σ1.
    rewrite !lookup_insert_ne; [done| |]; intros <-.
    + apply elem_of_dom in Hl. done.
    + rewrite Hnone2 in Hl. by destruct Hl.
  - eexists _, _, _, _. split; [exact Hw|].
    unfold hook_tags. simpl. by rewrite lookup_insert_ne.
Qed.

(** X8: given a client, the constructor contacts no server: it makes no
    call (no ping, no query), returns a hook on that very client, and
    leaves the existing maps as they are. *)
Theorem NewWithClient_contacts_no_server c db tg w :
  ∃ hook w',
    NewWithClientInfulxDBHook (Some c) db tg w = (Returns (Ok hook), w') ∧
    client hook = Some c ∧
    calls w' = calls w ∧
    ∀ l : loc, is_Some (mem w !! l) → mem w' !! l = mem w !! l.
Proof.
  rewrite NewWithClientInfulxDBHook_given.
  destruct tg as [l0|]; eexists _, _; (split; [reflexivity|]);
    split_and!; try done.
  intros l Hl. apply (tags_settled_old None w l Hl).
Qed.

(** X9: without a client, [NewWithClientInfulxDBHook] is
    [NewInfluxDBHook] on "localhost": substituting the defaults a second
    time changes nothing. *)
Theorem NewWithClient_nil_client_delegates db tg w :
  NewWithClientInfulxDBHook None db tg w
  = NewInfluxDBHook DefaultHost db tg w.
Proof.
  unfold NewWithClientInfulxDBHook, bind. fold (effective_database db).
  rewrite (NewInfluxDBHook_eq DefaultHost db tg w). cbv zeta.
  destruct tg as [l|]; simpl;
    rewrite NewInfluxDBHook_eq; cbv zeta; simpl;
    by rewrite effective_database_twice.
Qed.

(** X10: the connecting constructor fails early and says why.  If the
    address does not parse or the client cannot be made, it returns that
    error without any call to a server; if the ping fails, it returns the
    ping's error and the ping is the only call made.  Otherwise it returns
    (it does not panic) and the ping is its first call. *)
Theorem NewInfluxDBHook_fails_early host db tg w :
  match url_Parse (hook_address host) with
  | Err e =>
      ∃ w', NewInfluxDBHook host db tg w = (Returns (Err e), w') ∧
            new_calls w w' = []
  | Ok u =>
      match influxdb_NewClient (hook_config u w) with
      | Err e =>
          ∃ w', NewInfluxDBHook host db tg w = (Returns (Err e), w') ∧
                new_calls w w' = []
      | Ok c =>
          match on_ping c (calls w) with
          | Some e =>
              ∃ w', NewInfluxDBHook host db tg w = (Returns (Err e), w') ∧
                    new_calls w w' = [CallPing]
          | None =>
              ∃ r w', NewInfluxDBHook host db tg w = (Returns r, w') ∧
                      head (new_calls w w') = Some CallPing
          end
      end
  end.
Proof.
  rewrite NewInfluxDBHook_eq. cbv zeta.
  assert (calls (tags_settled tg w) = calls w) as Hcalls by (by destruct tg).
  destruct (url_Parse _) as [u|e].
  2: { eexists. split; [reflexivity|]. by apply new_calls_none. }
  destruct (influxdb_NewClient _) as [c|e].
  2: { eexists. split; [reflexivity|]. by apply new_calls_none. }
  destruct (on_ping c _) as [e|].
  { eexists. split; [reflexivity|]. apply new_calls_app. simpl.
    by rewrite Hcalls. }
  erewrite (autocreateDatabase_eq _ _ c) by reflexivity. cbv zeta.
  destruct (exists_verdict _ _) as [e|].
  - destruct (query_outcome c _ _) as [rs|e'];
      eexists _, _; (split; [reflexivity|]);
      (erewrite (new_calls_app _ _ (_ :: _));
       [reflexivity | simpl; by rewrite Hcalls, <- !app_assoc]).
  - eexists _, _. split; [reflexivity|].
    erewrite (new_calls_app _ _ (_ :: _));
      [reflexivity | simpl; by rewrite Hcalls, <- !app_assoc].
Qed.

(** X11: once the address has parsed, the client has been made from it,
    from the credentials of the environment (empty when unset) and a
    timeout of 100 ms, and the ping has succeeded, the constructor
    provisions the database.  If the check finds it, the hook is returned
    after ping and SHOW DATABASES; if not, after ping, SHOW DATABASES and
    one create statement, and the hook is returned only if that statement
    succeeded, its error otherwise. *)
Theorem NewInfluxDBHook_provisions host db tg w u c :
  url_Parse (hook_address host) = Ok u →
  influxdb_NewClient (hook_config u w) = Ok c →
  on_ping c (calls w) = None →
  let hook := {| client := Some c; database := effective_database db;
                 tags := tags_ref tg w |} in
  let before := (calls w ++ [CallPing])%list in
  ∃ r w',
    NewInfluxDBHook host db tg w = (Returns r, w') ∧
    match exists_verdict (database hook)
            (query_outcome c before (show_query hook)) with
    | None =>
        r = Ok hook ∧
        new_calls w w' = [CallPing; CallQuery (show_query hook)]
    | Some _ =>
        new_calls w w' =
          [CallPing; CallQuery (show_query hook);
           CallQuery (create_query hook)] ∧
        r = match query_outcome c (before ++ [CallQuery (show_query hook)])
                    (create_query hook) with
            | Err e => Err e
            | Ok _ => Ok hook
            end
    end.
Proof.
  intros Hu Hc Hping hook before.
  rewrite NewInfluxDBHook_eq. cbv zeta. rewrite Hu, Hc, Hping.
  assert (calls (tags_settled tg w) = calls w) as Hcalls by (by destruct tg).
  erewrite (autocreateDatabase_eq _ _ c) by reflexivity. cbv zeta.
  fold hook. simpl calls. rewrite Hcalls. fold before.
  destruct (exists_verdict _ _) as [e|].
  - destruct (query_outcome c _ _) as [rs|e'];
      eexists _, _; (split; [reflexivity|]); (split; [|reflexivity]);
      apply new_calls_app; simpl; by rewrite Hcalls, <- !app_assoc.
  - eexists _, _. split; [reflexivity|]. split; [reflexivity|].
    apply new_calls_app. simpl. by rewrite Hcalls, <- !app_assoc.
Qed.

(** X14: the connecting constructor always returns, with a hook or with an
    error, and never writes into a map that existed: construction does not
    change the caller's tags. *)
Theorem NewInfluxDBHook_keeps_maps host db tg w :
  ∃ r w',
    NewInfluxDBHook host db tg w = (Returns r, w') ∧
    ∀ l : loc, is_Some (mem w !! l) → mem w' !! l = mem w !! l.
Proof.
  rewrite NewInfluxDBHook_eq. cbv zeta.
  pose proof (tags_settled_old tg w) as Hold.
  destruct (url_Parse _) as [u|e]; [|by eexists _, _].
  destruct (influxdb_NewClient _) as [c|e]; [|by eexists _, _].
  destruct (on_ping c _) as [e|]; [by eexists _, _|].
  erewrite (autocreateDatabase_eq _ _ c) by reflexivity. cbv zeta.
  destruct (exists_verdict _ _) as [e|]; [|by eexists _, _].
  by destruct (query_outcome c _ _) as [rs|e']; eexists _, _.
Qed.

End ConstructionMore.

Lemma hooks_share_caller_map_witness :
  mem tagged_world !! 1%positive = Some default_tags ∧
  ∃ h1 h2 p1 seen1 r1 w1 p2 seen2 tg2 r2 w2,
    NewWithClientInfulxDBHook (H := example_libs_ok)
      (Some (serving ["logrus"])) "" (Some 1%positive) tagged_world
      = (Returns (Ok h1), tagged_world) ∧
    NewWithClientInfulxDBHook (H := example_libs_ok)
      (Some (serving [])) "audit" (Some 1%positive) tagged_world
      = (Returns (Ok h2), tagged_world) ∧
    Fire_writes (H := example_libs_ok) h1 example_entry tagged_world
      p1 seen1 r1 w1 ∧
    Fire_writes (H := example_libs_ok) h2 plain_entry w1 p2 seen2 r2 w2 ∧
    tags_seen p2 seen2 = Some tg2 ∧
    tg2 !! "logger" = Some "diskmon".
Proof.
  split; [reflexivity|].
  destruct (hooks_share_caller_map (H := example_libs_ok)
              (serving ["logrus"]) (serving []) "" "audit" 1%positive
              default_tags tagged_world example_entry plain_entry eq_refl)
    as (h1 & h2 & p1 & seen1 & r1 & w1 & p2 & seen2 & tg2 & r2 & w2
        & Hn1 & Hn2 & Hf1 & Hf2 & Htg & Hshared).
  exists h1, h2, p1, seen1, r1, w1, p2, seen2, tg2, r2, w2.
  split; [exact Hn1|]. split; [exact Hn2|]. split; [exact Hf1|].
  split; [exact Hf2|]. split; [exact Htg|].
  apply Hshared; [left; reflexivity | reflexivity | discriminate].
Defined.

Lemma NewInfluxDBHook_provisions_witness :
  url_Parse (Libraries := example_libs (serving []))
    (hook_address "localhost") = Ok "http://localhost:8086" ∧
  influxdb_NewClient (Libraries := example_libs (serving []))
    (hook_config "http://localhost:8086" world0) = Ok (serving []) ∧
  on_ping (serving []) (calls world0) = None ∧
  ∃ hook w',
    NewInfluxDBHook (H := example_libs (serving [])) "localhost" "" None
      world0 = (Returns (Ok hook), w') ∧
    database hook = "logrus" ∧
    new_calls world0 w' =
      [CallPing; CallQuery (show_query hook); CallQuery (create_query hook)].
Proof.
  split; [reflexivity|]. split; [reflexivity|]. split; [reflexivity|].
  destruct (NewInfluxDBHook_provisions (H := example_libs (serving []))
              "localhost" "" None world0 "http://localhost:8086"
              (serving []) eq_refl eq_refl eq_refl)
    as (r & w' & Hrun & Hcase).
  destruct Hcase as [Hcalls ->]. eexists _, w'.
  split; [exact Hrun|]. split; [reflexivity | exact Hcalls].
Defined.

(** ** Further properties of the queries and of runs of entries *)

Section QueryMore.
Context `{Libraries}.

(** X12: [queryDB] makes one call, the command sent to the hook's
    database, and leaves the store alone.  It returns results only when the
    call succeeded and the response carries no error; an error inside a
    response that did arrive is returned as the failure, and so is the
    call's own error. *)
Theorem queryDB_results hook cmd w c :
  client hook = Some c →
  let q := {| Command := cmd; QDatabase := database hook |} in
  ∃ r w',
    queryDB hook cmd w = (Returns r, w') ∧
    new_calls w w' = [CallQuery q] ∧ mem w' = mem w ∧
    (∀ rs, r = Ok rs ↔
       ∃ resp, on_query c (calls w) q = Ok resp ∧
               Response_Error resp = None ∧ rs = Results resp) ∧
    (∀ resp e, on_query c (calls w) q = Ok resp →
               Response_Error resp = Some e → r = Err e) ∧
    (∀ e, on_query c (calls w) q = Err e → r = Err e).
Proof.
  intros Hc q. eexists _, _. split; [by apply queryDB_eq|]. fold q.
  split; [by apply new_calls_app|]. split; [reflexivity|].
  unfold query_outcome.
  destruct (on_query c (calls w) q) as [resp|e].
  - destruct (Response_Error resp) as [e|] eqn:Herr.
    + split_and!; try done.
      * intros rs. split; [done|].
        intros (resp' & [= <-] & Hnone & _). congruence.
      * intros resp' e' [= <-]. congruence.
    + split_and!; try done.
      * intros rs. split.
        -- intros [= <-]. by exists resp.
        -- by intros (resp' & [= <-] & _ & ->).
      * intros resp' e' [= <-]. congruence.
  - split_and!; try done.
    + intros rs. split; [done|]. by intros (resp' & [=] & _).
    + by intros e' [= <-].
Qed.

Lemma Fire_all_results hook es : ∀ w c l m,
  client hook = Some c → tags hook = Some l → mem w !! l = Some m →
  ∃ rs w' cs,
    Fire_all hook es w = (Returns rs, w') ∧
    calls w' = (calls w ++ cs)%list ∧
    length rs = length es ∧ length cs = length es ∧
    ∀ (i : nat) r, rs !! i = Some r →
      ∃ e now seen,
        es !! i = Some e ∧
        cs !! i = Some (CallWrite (fire_batch hook e now) seen) ∧
        r = on_write c (calls w ++ take i cs) (fire_batch hook e now) seen.
Proof.
  induction es as [|e es IH]; intros w c l m Hc Hl Hm.
  - exists [], w, []. simpl. rewrite app_nil_r. by split_and!.
  - cbn [Fire_all]. unfold bind at 1.
    rewrite (Fire_eq hook e w c l m Hc Hl Hm). cbv zeta.
    set (σ := <[l := fire_tags e m]> (mem w)).
    set (c0 := CallWrite (fire_batch hook e (clock w)) σ).
    set (w1 := log_call c0 (set_mem σ w)).
    assert (mem w1 !! l = Some (fire_tags e m)) as Hm1
      by apply lookup_insert_eq.
    destruct (IH w1 c l _ Hc Hl Hm1) as (rs & w' & cs & Hrun & Hcs & Hlen
      & Hlen' & Hall).
    eexists (_ :: rs), w', (c0 :: cs).
    split; [unfold bind; by rewrite Hrun|].
    split; [rewrite Hcs; simpl; by rewrite <- app_assoc|].
    split; [simpl; by rewrite Hlen|].
    split; [simpl; by rewrite Hlen'|].
    intros [|i] r; simpl.
    + intros [= <-]. exists e, (clock w), σ. by rewrite app_nil_r.
    + intros Hr. destruct (Hall i r Hr) as (e' & now & seen & He & Hci & ->).
      exists e', now, seen. split_and!; try done.
      f_equal. simpl. by rewrite <- app_assoc.
Qed.

(** X13: a run of entries is written entry by entry, whatever the writes
    return: there is one write per entry, in order, carrying that entry's
    message, and each result is the client's answer to that write.  A
    failed write neither stops nor alters the ones that follow. *)
Theorem Fire_all_writes_every_entry hook es w :
  hook_ok w hook = true →
  ∃ c rs w',
    client hook = Some c ∧
    Fire_all hook es w = (Returns rs, w') ∧
    length rs = length es ∧ length (new_calls w w') = length es ∧
    ∀ (i : nat) r, rs !! i = Some r →
      ∃ e p seen,
        es !! i = Some e ∧
        new_calls w w' !! i = Some (CallWrite (batch_of hook p) seen) ∧
        Fields p !! "message" = Some (IString (Message e)) ∧
        r = on_write c (calls w ++ take i (new_calls w w'))
              (batch_of hook p) seen.
Proof.
  intros (c & l & m & Hc & Hl & Hm)%hook_ok_inv.
  destruct (Fire_all_results hook es w c l m Hc Hl Hm)
    as (rs & w' & cs & Hrun & Hcs & Hlen & Hlen' & Hall).
  exists c, rs, w'. rewrite (new_calls_app _ _ _ Hcs).
  split_and!; try done.
  intros i r Hr. destruct (Hall i r Hr) as (e & now & seen & He & Hci & ->).
  exists e, (fire_point hook e now), seen. split_and!; try done.
  apply fire_fields_message.
Qed.


End QueryMore.

Lemma queryDB_results_witness :
  client (hook_on unreachable) = Some unreachable ∧
  ∃ w',
    queryDB (H := example_libs_ok) (hook_on unreachable) "SHOW DATABASES"
      world0
      = (Returns (Err {| err_type := "*url.Error";
                         err_msg := "connection refused" |}), w') ∧
    new_calls world0 w' =
      [CallQuery {| Command := "SHOW DATABASES"; QDatabase := "logrus" |}].
Proof.
  split; [reflexivity|].
  destruct (queryDB_results (H := example_libs_ok) (hook_on unreachable)
              "SHOW DATABASES" world0 unreachable eq_refl)
    as (r & w' & Hrun & Hcalls & _ & _ & _ & Herr).
  exists w'. rewrite <- (Herr _ eq_refl). split; [exact Hrun | exact Hcalls].
Defined.

Lemma Fire_all_writes_every_entry_witness :
  hook_ok example_world (hook_on (refusing_writes [])) = true ∧
  ∃ rs w',
    Fire_all (H := example_libs_ok) (hook_on (refusing_writes []))
      [example_entry; plain_entry] example_world = (Returns rs, w') ∧
    length rs = 2 ∧ length (new_calls example_world w') = 2.
Proof.
  split; [reflexivity|].
  destruct (Fire_all_writes_every_entry (H := example_libs_ok)
              (hook_on (refusing_writes [])) [example_entry; plain_entry]
              example_world eq_refl)
    as (c & rs & w' & _ & Hrun & Hlen & Hlen' & _).
  exists rs, w'. split; [exact Hrun|]. split; [exact Hlen | exact Hlen'].
Defined.


Section ProvisionMore.
Context `{Libraries}.

Lemma exists_verdict_None db out :
  exists_verdict db out = None ↔
  ∃ r0 rest s0 srest row,
    out = Ok (r0 :: rest) ∧ Series r0 = s0 :: srest ∧
    row ∈ Values s0 ∧ IString db ∈ row.
Proof.
  unfold exists_verdict. split.
  - destruct out as [[|r0 rest]|e]; try done.
    destruct (Series r0) as [|s0 srest] eqn:Hser; [done|].
    destruct (values_name db (Values s0)) eqn:Hval; [|done].
    apply values_name_spec in Hval as (row & Hin & Hcell).
    intros _. by exists r0, rest, s0, srest, row.
  - intros (r0 & rest & s0 & srest & row & -> & -> & Hin & Hcell).
    assert (values_name db (Values s0) = true) as ->
      by (apply values_name_spec; eauto).
    done.
Qed.

(** X16: [autocreateDatabase] sends the create statement exactly when the
    check did not find the name, that is, unless the SHOW DATABASES query
    succeeded and a string cell of the first series of its first result is
    the hook's database.  A failed query, and a name listed only in a later
    series or result, both lead to the create statement. *)
Theorem autocreateDatabase_creates_iff hook w c :
  client hook = Some c →
  ∃ r w',
    autocreateDatabase hook w = (Returns r, w') ∧
    (CallQuery (create_query hook) ∈ new_calls w w' ↔
     ¬ ∃ r0 rest s0 srest row,
         query_outcome c (calls w) (show_query hook) = Ok (r0 :: rest) ∧
         Series r0 = s0 :: srest ∧
         row ∈ Values s0 ∧ IString (database hook) ∈ row).
Proof.
  intros Hc. rewrite (autocreateDatabase_eq _ _ _ Hc). cbv zeta.
  pose proof (exists_verdict_None (database hook)
                (query_outcome c (calls w) (show_query hook))) as Hfound.
  assert (CallQuery (create_query hook) ≠ CallQuery (show_query hook))
    as Hdiff by (intros [=]).
  destruct (exists_verdict _ _) as [e|].
  - eexists _, _. split; [reflexivity|].
    erewrite new_calls_app; [|simpl; by rewrite <- app_assoc].
    split.
    + intros _ Hex. apply Hfound in Hex. discriminate.
    + intros _. apply elem_of_cons. right. by left.
  - eexists _, _. split; [reflexivity|].
    erewrite new_calls_app; [|reflexivity].
    split.
    + intros Hin. apply list_elem_of_singleton in Hin. done.
    + intros Hno. destruct Hno. by apply Hfound.
Qed.

End ProvisionMore.

(** The name is listed, but in the second series: the check does not see
    it and the create statement is sent. *)
Lemma autocreateDatabase_creates_iff_witness :
  client (hook_on listing_later) = Some listing_later ∧
  ∃ r w',
    autocreateDatabase (H := example_libs_ok) (hook_on listing_later) world0
      = (Returns r, w') ∧
    CallQuery (create_query (hook_on listing_later)) ∈ new_calls world0 w'.
Proof.
  split; [reflexivity|].
  destruct (autocreateDatabase_creates_iff (H := example_libs_ok)
              (hook_on listing_later) world0 listing_later eq_refl)
    as (r & w' & Hrun & Hiff).
  exists r, w'. split; [exact Hrun|]. apply Hiff.
  intros (r0 & rest & s0 & srest & row & Hout & Hser & Hin & Hcell).
  vm_compute in Hout. injection Hout as <- <-.
  vm_compute in Hser. injection Hser as <- <-.
  apply list_elem_of_singleton in Hin as ->.
  apply list_elem_of_singleton in Hcell. discriminate.
Defined.

(** ** The defaults of the constructors *)

Section ConstructionDefaults.
Context `{Libraries}.

(** The connecting constructor returns its hook once every step has
    succeeded. *)
Lemma NewInfluxDBHook_succeeds host db tg w u c :
  url_Parse (hook_address host) = Ok u →
  influxdb_NewClient (hook_config u w) = Ok c →
  on_ping c (calls w) = None →
  provisioned c (calls w ++ [CallPing]) (made_hook c db tg w) →
  ∃ w',
    NewInfluxDBHook host db tg w = (Returns (Ok (made_hook c db tg w)), w') ∧
    mem w' = mem (tags_settled tg w).
Proof.
  intros Hu Hc Hping Hprov.
  rewrite NewInfluxDBHook_eq. cbv zeta. rewrite Hu, Hc, Hping.
  assert (calls (tags_settled tg w) = calls w) as Hcalls by (by destruct tg).
  erewrite (autocreateDatabase_eq _ _ c) by reflexivity. cbv zeta.
  fold (made_hook c db tg w). simpl calls. rewrite Hcalls.
  unfold provisioned in Hprov.
  destruct (exists_verdict _ _) as [e|].
  - destruct Hprov as [[=]|[rs Hrs]]. rewrite Hrs. by eexists.
  - by eexists.
Qed.

Lemma made_hook_defaults c db tg w w' :
  mem w' = mem (tags_settled tg w) →
  database (made_hook c db tg w) = (if decide (db = "") then "logrus" else db) ∧
  match tg with
  | None => hook_tags w' (made_hook c db tg w) = Some ∅
  | Some l => tags (made_hook c db tg w) = Some l
  end.
Proof.
  intros Hmem. split; [done|]. destruct tg as [l|]; [done|].
  unfold hook_tags. simpl. rewrite Hmem. simpl. apply lookup_insert_eq.
Qed.

(** C7: both constructors substitute the defaults.  The hook a constructor
    returns has the database "logrus" if the database argument was the
    empty string (and the argument otherwise), and for a nil tags argument
    its tag map is a new empty map (otherwise it is the caller's map); no
    constructor panics.  And the hook is returned: always when a client is
    given, and by the connecting constructor (called directly, or through a
    nil client on "localhost") whenever the address parses, the client is
    made, the ping succeeds and the database is found or created. *)
Theorem constructors_substitute_defaults host c_opt db tg w :
  defaults_hold db tg (NewInfluxDBHook host db tg w) ∧
  defaults_hold db tg (NewWithClientInfulxDBHook c_opt db tg w) ∧
  (∀ c, ∃ hook w',
     NewWithClientInfulxDBHook (Some c) db tg w = (Returns (Ok hook), w')) ∧
  (∀ u c,
     url_Parse (hook_address host) = Ok u →
     influxdb_NewClient (hook_config u w) = Ok c →
     on_ping c (calls w) = None →
     provisioned c (calls w ++ [CallPing]) (made_hook c db tg w) →
     ∃ hook w',
       NewInfluxDBHook host db tg w = (Returns (Ok hook), w') ∧
       database hook = (if decide (db = "") then "logrus" else db) ∧
       match tg with
       | None => hook_tags w' hook = Some ∅
       | Some l => tags hook = Some l
       end) ∧
  (∀ u c,
     url_Parse (hook_address DefaultHost) = Ok u →
     influxdb_NewClient (hook_config u w) = Ok c →
     on_ping c (calls w) = None →
     provisioned c (calls w ++ [CallPing]) (made_hook c db tg w) →
     ∃ hook w',
       NewWithClientInfulxDBHook None db tg w = (Returns (Ok hook), w') ∧
       database hook = (if decide (db = "") then "logrus" else db) ∧
       match tg with
       | None => hook_tags w' hook = Some ∅
       | Some l => tags hook = Some l
       end).
Proof.
  assert (NewWithClientInfulxDBHook None db tg w
          = NewInfluxDBHook DefaultHost db tg w) as Hnil.
  { unfold NewWithClientInfulxDBHook, bind. fold (effective_database db).
    rewrite (NewInfluxDBHook_eq DefaultHost db tg w). cbv zeta.
    destruct tg as [l|]; simpl;
      rewrite NewInfluxDBHook_eq; cbv zeta; simpl;
      by rewrite effective_database_twice. }
  assert (∀ h, defaults_hold db tg (NewInfluxDBHook h db tg w)) as Hdef.
  { intros h. unfold defaults_hold.
    pose proof (NewInfluxDBHook_inv h db tg w) as Hn.
    destruct (NewInfluxDBHook h db tg w) as [[[hook|e]|why] w']; try done.
    destruct Hn as (Hdb & _ & Htg). split; [exact Hdb|].
    destruct tg as [l|]; destruct Htg as [Hl Hmem]; [done|].
    unfold hook_tags. rewrite Hl, Hmem. simpl. apply lookup_insert_eq. }
  split_and!.
  - apply Hdef.
  - destruct c_opt as [c|]; [|rewrite Hnil; apply Hdef].
    rewrite NewWithClientInfulxDBHook_given. unfold defaults_hold.
    destruct tg as [l|]; simpl; (split; [done|]); [done|].
    unfold hook_tags. simpl. apply lookup_insert_eq.
  - intros c. rewrite NewWithClientInfulxDBHook_given.
    destruct tg; eauto.
  - intros u c Hu Hc Hping Hprov.
    destruct (NewInfluxDBHook_succeeds host db tg w u c Hu Hc Hping Hprov)
      as (w' & Hrun & Hmem).
    exists (made_hook c db tg w), w'. split; [exact Hrun|].
    by apply made_hook_defaults.
  - intros u c Hu Hc Hping Hprov. rewrite Hnil.
    destruct (NewInfluxDBHook_succeeds DefaultHost db tg w u c Hu Hc Hping
                Hprov) as (w' & Hrun & Hmem).
    exists (made_hook c db tg w), w'. split; [exact Hrun|].
    by apply made_hook_defaults.
Qed.

End ConstructionDefaults.

Lemma constructors_substitute_defaults_witness :
  url_Parse (Libraries := example_libs (serving []))
    (hook_address "localhost") = Ok "http://localhost:8086" ∧
  influxdb_NewClient (Libraries := example_libs (serving []))
    (hook_config "http://localhost:8086" world0) = Ok (serving []) ∧
  on_ping (serving []) (calls world0) = None ∧
  provisioned (H := example_libs (serving [])) (serving [])
    (calls world0 ++ [CallPing]) (made_hook (serving []) "" None world0) ∧
  (∃ hook w',
     NewInfluxDBHook (H := example_libs (serving [])) "localhost" "" None
       world0 = (Returns (Ok hook), w') ∧
     database hook = "logrus" ∧ hook_tags w' hook = Some ∅) ∧
  (∃ hook w',
     NewWithClientInfulxDBHook (H := example_libs (serving [])) None "" None
       world0 = (Returns (Ok hook), w') ∧
     database hook = "logrus" ∧ hook_tags w' hook = Some ∅).
Proof.
  assert (provisioned (H := example_libs (serving [])) (serving [])
            (calls world0 ++ [CallPing])
            (made_hook (serving []) "" None world0)) as Hprov.
  { right. eexists. reflexivity. }
  split; [reflexivity|]. split; [reflexivity|]. split; [reflexivity|].
  split; [exact Hprov|].
  destruct (constructors_substitute_defaults (H := example_libs (serving []))
              "localhost" None "" None world0)
    as (_ & _ & _ & Hconn & Hnil).
  split.
  - exact (Hconn "http://localhost:8086" (serving []) eq_refl eq_refl eq_refl
             Hprov).
  - exact (Hnil "http://localhost:8086" (serving []) eq_refl eq_refl eq_refl
             Hprov).
Defined.
